(** * Freemail worker: inbound-mail ingestion and the expiry sweeper

    A shallow embedding of [src/server.js]: the [email] handler (address
    resolution, forwarding dispatch, content extraction, archiving,
    mailbox find-or-create, metadata insert) and the [scheduled] handler
    (the retention sweep), with the JavaScript string operations they use.

    Conventions.
    - A JavaScript string is a [string]: a sequence of code units, here
      the code units below 256 (U+0000 .. U+00FF), on which
      [toLowerCase], [trim] and the regular expressions of the source are
      given exactly.
    - SQL integers and JavaScript numbers that hold integers are [Z].
    - A table is the list of its rows in row order.
    - Handlers run in a state-and-exception monad over the [World] (the
      datastore, the blob store and the trace of observable effects);
      [try]/[catch] is [try_catch].
    - [email] is the handler for a forward-target lookup that returns,
      and [scheduled] the sweep whose three statements read the same
      second of the datastore's clock; [email_awaiting] takes the lookup
      as an awaited call that may reject, and [scheduled_clocks] a clock
      reading for each statement.
    - The blob deletes of the sweep are not awaited: the world after the
      sweep is the one in which they have settled, and no statement
      depends on where their events stand in the trace. *)

From Stdlib Require Import ZArith List Bool Lia.
From Stdlib Require Import Strings.String Strings.Ascii.
From Stdlib Require Import Numbers.DecimalString Numbers.DecimalZ.
Import ListNotations.

Local Open Scope string_scope.
Local Open Scope Z_scope.

(** ** JavaScript values and string built-ins *)

Module JS.

(** Truthiness of a string: every string but the empty one. *)
Definition truthy (s : string) : bool :=
  match s with
  | EmptyString => false
  | String _ _ => true
  end.

(** [a || b] on strings. *)
Definition or (a b : string) : string := if truthy a then a else b.

(** [a || b] where [a] may be [null]/[undefined]. *)
Definition or_opt (a : option string) (b : string) : string :=
  match a with
  | Some s => or s b
  | None => b
  end.

(** Truthiness of a value that is a string, [null] or [undefined]. *)
Definition truthy_opt (a : option string) : bool :=
  match a with
  | Some s => truthy s
  | None => false
  end.

Definition code (c : ascii) : N := N_of_ascii c.

Definition in_range (lo hi c : ascii) : bool :=
  ((code lo <=? code c) && (code c <=? code hi))%N.

(** [String.prototype.toLowerCase] on code units below 256: the ASCII
    capitals and the Latin-1 capitals U+00C0 .. U+00DE (U+00D7, the
    multiplication sign, apart) move up by 32. *)
Definition lower_unit (c : ascii) : ascii :=
  let n := code c in
  if ((65 <=? n) && (n <=? 90))%N then ascii_of_N (n + 32)
  else if ((192 <=? n) && (n <=? 222) && negb (n =? 215))%N then ascii_of_N (n + 32)
  else c.

Fixpoint map (f : ascii -> ascii) (s : string) : string :=
  match s with
  | EmptyString => EmptyString
  | String c r => String (f c) (map f r)
  end.

Definition toLowerCase (s : string) : string := map lower_unit s.

(** White space and line terminators ([\s], and what [trim] removes):
    TAB, LF, VT, FF, CR, SPACE and NBSP. *)
Definition isWhiteSpace (c : ascii) : bool :=
  let n := code c in
  (((9 <=? n) && (n <=? 13)) || (n =? 32) || (n =? 160))%N.

Fixpoint trimStart (s : string) : string :=
  match s with
  | EmptyString => EmptyString
  | String c r => if isWhiteSpace c then trimStart r else s
  end.

(** [trimEnd], right to left: a white-space unit is dropped when
    everything after it has been dropped. *)
Fixpoint trimEnd (s : string) : string :=
  match s with
  | EmptyString => EmptyString
  | String c r =>
      match trimEnd r with
      | EmptyString => if isWhiteSpace c then EmptyString else String c EmptyString
      | r' => String c r'
      end
  end.

Definition trim (s : string) : string := trimEnd (trimStart s).

(** [s.slice(0, n)]. *)
Fixpoint slice0 (n : nat) (s : string) : string :=
  match n, s with
  | S k, String c r => String c (slice0 k r)
  | _, _ => EmptyString
  end.

(** [s.slice(n)]. *)
Fixpoint sliceFrom (n : nat) (s : string) : string :=
  match n, s with
  | S k, String _ r => sliceFrom k r
  | _, _ => s
  end.

(** [s.split(sep)] for a one-unit separator: never the empty array. *)
Fixpoint split (sep : ascii) (s : string) : list string :=
  match s with
  | EmptyString => [EmptyString]
  | String c r =>
      if Ascii.eqb c sep then EmptyString :: split sep r
      else match split sep r with
           | h :: t => String c h :: t
           | [] => [String c EmptyString]
           end
  end.

(** [String(n)] for an integer [n]. *)
Definition String_of_Z (n : Z) : string := NilZero.string_of_int (Z.to_int n).

Fixpoint repeat_unit (c : ascii) (n : nat) : string :=
  match n with
  | O => EmptyString
  | S k => String c (repeat_unit c k)
  end.

(** [s.padStart(n, c)] for a one-unit filler. *)
Definition padStart (n : nat) (c : ascii) (s : string) : string :=
  repeat_unit c (n - String.length s) ++ s.

(** [xs.join(sep)]. *)
Definition join (sep : string) (xs : list string) : string := String.concat sep xs.

(** *** The regular expressions of the source *)

(** An item of a character class: a range [a-z] or a single unit. *)
Inductive ClassItem : Type :=
| Range (lo hi : ascii)
| Unit (c : ascii).

Definition item_matches (c : ascii) (i : ClassItem) : bool :=
  match i with
  | Range lo hi => in_range lo hi c
  | Unit u => Ascii.eqb c u
  end.

(** [[...]] and [[^...]]. *)
Definition class_matches (cls : list ClassItem) (c : ascii) : bool :=
  existsb (item_matches c) cls.

Definition negclass_matches (cls : list ClassItem) (c : ascii) : bool :=
  negb (class_matches cls c).

(** [s.replace(/[^...]/g, r)] for a one-unit replacement: every match
    is one unit long, so the global replace acts unit by unit. *)
Definition replace_negclass (cls : list ClassItem) (r : ascii) (s : string) : string :=
  map (fun c => if negclass_matches cls c then r else c) s.

(** The length of the run [[^>]+] at the head of [s] when that run is
    not empty and a ['>'] follows it: the greedy run takes every unit up
    to the first ['>'], and no shorter run is followed by ['>']. *)
Fixpoint tag_body (s : string) : option nat :=
  match s with
  | EmptyString => None
  | String c r =>
      if Ascii.eqb c ">" then None
      else match r with
           | String d _ =>
               if Ascii.eqb d ">" then Some 1%nat
               else option_map S (tag_body r)
           | EmptyString => None
           end
  end.

(** The length of the match of [/<[^>]+>/] at the head of [s]. *)
Definition tag_match (s : string) : option nat :=
  match s with
  | String c r =>
      if Ascii.eqb c "<" then option_map (fun n => S (S n)) (tag_body r) else None
  | EmptyString => None
  end.

(** [s.replace(/<[^>]+>/g, ' ')]: left to right; [skip] counts the
    units of the current match still to be dropped. *)
Fixpoint replace_tags_from (skip : nat) (s : string) : string :=
  match s with
  | EmptyString => EmptyString
  | String c r =>
      match skip with
      | S k => replace_tags_from k r
      | O =>
          match tag_match s with
          | Some n => String " " (replace_tags_from (Nat.pred n) r)
          | None => String c (replace_tags_from O r)
          end
      end
  end.

Definition replace_tags (s : string) : string := replace_tags_from O s.

(** [s.replace(/\s+/g, ' ')]: a maximal run of white space becomes one
    space; [inrun] tells that the previous unit was white space. *)
Fixpoint replace_spaces_from (inrun : bool) (s : string) : string :=
  match s with
  | EmptyString => EmptyString
  | String c r =>
      if isWhiteSpace c then
        if inrun then replace_spaces_from true r
        else String " " (replace_spaces_from true r)
      else String c (replace_spaces_from false r)
  end.

Definition replace_spaces (s : string) : string := replace_spaces_from false s.

End JS.

(** ** The datastore, the blob store and the inbound message *)

(** A row of [mailboxes]. Times are seconds on the datastore's clock;
    [is_pinned] and [is_favorite] are SQL integers, 0 for false. *)
Record Mailbox : Type := mkMailbox {
  mb_id : Z;
  address : string;
  local_part : string;
  domain : string;
  password_hash : option string;
  created_at : Z;
  last_accessed_at : Z;
  is_pinned : Z;
  is_favorite : Z
}.

(** A row of [messages]; a SQL [NULL] is [None]. *)
Record MessageRow : Type := mkMessageRow {
  msg_id : Z;
  mailbox_id : Z;
  sender : string;
  to_addrs : string;
  subject : string;
  verification_code : option string;
  preview : option string;
  r2_bucket : string;
  r2_object_key : string
}.

Record DB : Type := mkDB {
  mailboxes : list Mailbox;
  messages : list MessageRow
}.

(** The exceptions the handlers can meet. *)
Inductive Exn : Type :=
| MailboxResolutionError            (* new Error('无法解析或创建 mailbox 记录') *)
| TypeError
| R2Error
| SqlConstraintError.

(** What the handlers can observe of their side effects, in order. *)
Inductive LogTag : Type :=
| DbConnectFailed
| R2PutFailed
| R2DeleteFailed (key : string)
| EmailHandlingError (err : Exn)
| SweepDone
| SweepFailed.

Inductive Event : Type :=
| ForwardByMailboxConfig (target : string)
| ForwardByLocalPart (localPart : string)
| R2Put (key : string)
| R2Delete (key : string)
| Console (tag : LogTag).

(** The bucket behind [env.MAIL_EML]: its objects, key and bytes. *)
Definition Bucket : Type := list (string * string).

Record World : Type := mkWorld {
  db : DB;
  bucket : Bucket;
  trace : list Event
}.

(** One recipient of [message.to] when it is an array: a string, an
    object with an optional [address], or [null]/[undefined]. *)
Inductive ToEntry : Type :=
| EntryString (s : string)
| EntryObject (addr : option string)
| EntryNullish.

Inductive ToValue : Type :=
| ToArray (entries : list ToEntry)
| ToString (s : string)
| ToAbsent.

(** The inbound message: [headers.get], [to] and the raw stream ([None]
    when reading it fails). *)
Record EmailMessage : Type := mkEmailMessage {
  headers_get : string -> option string;
  to : ToValue;
  raw : option string
}.

(** The UTC fields of [new Date()], as its getters return them. *)
Record UTCDate : Type := mkUTCDate {
  getUTCFullYear : Z;
  getUTCMonth : Z;
  getUTCDate : Z;
  getUTCHours : Z;
  getUTCMinutes : Z;
  getUTCSeconds : Z
}.

(** The binding [env.MAIL_EML]: which [put] and [delete] calls raise. *)
Record R2Binding : Type := mkR2Binding {
  put_raises : string -> bool;
  delete_raises : string -> bool
}.

(** What one invocation reads from its environment and its runtime. *)
Record Env : Type := mkEnv {
  db_reachable : bool;                (* getInitializedDatabase(env) returns *)
  MAIL_EML : option R2Binding;
  new_Date : UTCDate;
  Date_now : Z;                       (* Date.now() *)
  randomUUID : option string;         (* crypto.randomUUID(), when there is one *)
  Math_random_36 : string;            (* Math.random().toString(36) *)
  sql_now : Z                         (* the datastore's 'now', in seconds *)
}.

(** The imported functions of the repository that [server.js] calls and
    whose modules are not part of the development: they are parameters
    of the handlers. For the parser and the code extractor [None] is a
    raised exception, which the [catch] of their call site handles. For
    [getForwardTarget] the result is the value the lookup returns, [None]
    for [null]; the lookup that rejects is the subject of
    [email_awaiting] below. *)
Record Collaborators : Type := mkCollaborators {
  extractEmail : string -> string;
  getForwardTarget : DB -> string -> option string;
  parseEmailBody : string -> option (string * string);
  extractVerificationCode : string -> string -> string -> option string;
  decodeText : string -> string
}.

(** ** The handler monad: state and exceptions *)

Inductive Outcome (A : Type) : Type :=
| Returned (a : A)
| Thrown (e : Exn).

Arguments Returned {A} a.
Arguments Thrown {A} e.

Definition M (A : Type) : Type := World -> Outcome A * World.

Definition ret {A : Type} (a : A) : M A := fun w => (Returned a, w).

Definition throw {A : Type} (e : Exn) : M A := fun w => (Thrown e, w).

Definition bind {A B : Type} (m : M A) (k : A -> M B) : M B :=
  fun w =>
    match m w with
    | (Returned a, w') => k a w'
    | (Thrown e, w') => (Thrown e, w')
    end.

(** [try { m } catch (e) { h e }]: what [m] did to the world before it
    threw stays done. *)
Definition try_catch {A : Type} (m : M A) (h : Exn -> M A) : M A :=
  fun w =>
    match m w with
    | (Returned a, w') => (Returned a, w')
    | (Thrown e, w') => h e w'
    end.

Declare Scope handler_scope.
Delimit Scope handler_scope with handler.
Notation "x <- m ;; k" := (bind m (fun x => k))
  (at level 61, m at next level, right associativity) : handler_scope.
Notation "m ;; k" := (bind m (fun _ => k))
  (at level 61, right associativity) : handler_scope.
Local Open Scope handler_scope.

Definition get_db : M DB := fun w => (Returned (db w), w).

Definition set_db (d : DB) : M unit :=
  fun w => (Returned tt, mkWorld d (bucket w) (trace w)).

Definition emit (e : Event) : M unit :=
  fun w => (Returned tt, mkWorld (db w) (bucket w) (trace w ++ [e])).

Definition console (t : LogTag) : M unit := emit (Console t).

(** The world a computation leaves behind. *)
Definition exec {A : Type} (m : M A) (w : World) : World := snd (m w).

Definition outcome {A : Type} (m : M A) (w : World) : Outcome A := fst (m w).

(** ** The SQL statements of the handlers *)

Module Sql.

(** [SELECT id FROM mailboxes WHERE address = ?] *)
Definition select_mailbox_ids (addr : string) (d : DB) : list Z :=
  List.map mb_id (filter (fun mb => address mb =? addr)%string (mailboxes d)).

(** The identifier the datastore gives a new row: above every
    identifier of the table, and positive. *)
Definition next_id (ids : list Z) : Z := 1 + fold_right Z.max 0 ids.

(** Modelled from the spec: the schema of [mailboxes], which is not in
    [server.js]. By the spec's data model the address is unique, the
    creation time of a new row is now, and a new mailbox is neither
    pinned nor favorited. The statement is
    [INSERT INTO mailboxes (address, local_part, domain, password_hash,
    last_accessed_at) VALUES (?, ?, ?, NULL, CURRENT_TIMESTAMP)]. *)
Definition insert_mailbox (addr lp dom : string) (now : Z) : M unit :=
  d <- get_db ;;
  if existsb (fun mb => address mb =? addr)%string (mailboxes d)
  then throw SqlConstraintError
  else
    let row := mkMailbox (next_id (List.map mb_id (mailboxes d)))
                         addr lp dom None now now 0 0 in
    set_db (mkDB (mailboxes d ++ [row]) (messages d)).

(** [INSERT INTO messages (mailbox_id, sender, to_addrs, subject,
    verification_code, preview, r2_bucket, r2_object_key) VALUES (...)] *)
Definition insert_message (mailboxId : Z) (from toAddrs subj : string)
    (code prev : option string) (bucketName key : string) : M unit :=
  d <- get_db ;;
  let row := mkMessageRow (next_id (List.map msg_id (messages d)))
                          mailboxId from toAddrs subj code prev bucketName key in
  set_db (mkDB (mailboxes d) (messages d ++ [row])).

(** [created_at <= datetime('now', '-N minutes')] *)
Definition older_than (minutes now : Z) (mb : Mailbox) : bool :=
  created_at mb <=? now - minutes * 60.

(** [SELECT m.id, m.r2_object_key FROM messages m JOIN mailboxes mb
    ON m.mailbox_id = mb.id WHERE mb.created_at <= datetime('now',
    '-N minutes') AND m.r2_object_key != ''] *)
Definition select_expired_messages (minutes now : Z) (d : DB) : list (Z * string) :=
  flat_map
    (fun m =>
       List.map (fun _ => (msg_id m, r2_object_key m))
         (filter (fun mb => (mailbox_id m =? mb_id mb) && older_than minutes now mb)
                 (mailboxes d)))
    (filter (fun m => negb (r2_object_key m =? "")%string) (messages d)).

(** [DELETE FROM messages WHERE mailbox_id IN (SELECT id FROM mailboxes
    WHERE created_at <= datetime('now', '-N minutes'))] *)
Definition delete_expired_messages (minutes now : Z) (d : DB) : DB :=
  let ids := List.map mb_id (filter (older_than minutes now) (mailboxes d)) in
  mkDB (mailboxes d)
       (filter (fun m => negb (existsb (Z.eqb (mailbox_id m)) ids)) (messages d)).

(** [DELETE FROM mailboxes WHERE created_at <= datetime('now',
    '-N minutes') AND is_pinned = 0 AND is_favorite = 0] *)
Definition delete_expired_mailboxes (minutes now : Z) (d : DB) : DB :=
  mkDB (filter (fun mb => negb (older_than minutes now mb
                                && (is_pinned mb =? 0) && (is_favorite mb =? 0)))
               (mailboxes d))
       (messages d).

End Sql.

(** ** The blob store *)

Definition bucket_remove (key : string) (b : Bucket) : Bucket :=
  filter (fun kv => negb (fst kv =? key)%string) b.

(** [r2.put(key, bytes, ...)] *)
Definition r2_put (r2 : R2Binding) (key bytes : string) : M unit :=
  if put_raises r2 key then throw R2Error
  else fun w =>
    (Returned tt,
     mkWorld (db w) ((key, bytes) :: bucket_remove key (bucket w)) (trace w ++ [R2Put key])).

(** [r2.delete(key)] *)
Definition r2_delete (r2 : R2Binding) (key : string) : M unit :=
  if delete_raises r2 key then throw R2Error
  else fun w =>
    (Returned tt,
     mkWorld (db w) (bucket_remove key (bucket w)) (trace w ++ [R2Delete key])).

(** ** The [email] handler *)

Section Email.

Variable C : Collaborators.

(** The subject of a message that has none. *)
Definition NO_SUBJECT : string := "(无主题)".

(** [headers.get(a) || headers.get(b) || dflt] *)
Definition header_or (message : EmailMessage) (a b dflt : string) : string :=
  JS.or_opt (headers_get message a) (JS.or_opt (headers_get message b) dflt).

Definition toHeader (message : EmailMessage) : string := header_or message "to" "To" "".
Definition fromHeader (message : EmailMessage) : string := header_or message "from" "From" "".
Definition subjectHeader (message : EmailMessage) : string :=
  header_or message "subject" "Subject" NO_SUBJECT.

(** Lines 99-107: [envelopeTo] starts as [''] and is assigned inside a
    [try] whose [catch] is empty; reading [.address] of a nullish first
    entry raises. *)
Definition read_envelopeTo (message : EmailMessage) : M string :=
  try_catch
    (match to message with
     | ToArray (first :: _) =>
         match first with
         | EntryString s => ret s
         | EntryObject a => ret (JS.or_opt a "")
         | EntryNullish => throw TypeError
         end
     | ToArray [] => ret ""
     | ToString s => ret s
     | ToAbsent => ret ""
     end)
    (fun _ => ret "").

(** Line 109. *)
Definition resolve_recipient (message : EmailMessage) : M string :=
  envelopeTo <- read_envelopeTo message ;;
  ret (JS.or envelopeTo (JS.or (toHeader message) "")).

(** Line 111: [(addr.split('@')[0] || '').toLowerCase()] *)
Definition localPart_of (addr : string) : string :=
  JS.toLowerCase (JS.or (hd "" (JS.split "@" addr)) "").

(** Lines 113-118, for a lookup that returns. *)
Definition dispatch_forward (resolvedRecipientAddr : string) : M unit :=
  d <- get_db ;;
  let mailboxForwardTo := getForwardTarget C d resolvedRecipientAddr in
  match mailboxForwardTo with
  | Some target =>
      if JS.truthy target then emit (ForwardByMailboxConfig target)
      else emit (ForwardByLocalPart (localPart_of resolvedRecipientAddr))
  | None => emit (ForwardByLocalPart (localPart_of resolvedRecipientAddr))
  end.

(** The bound of line 130. *)
Definition RAW_TEXT_LIMIT : nat := Z.to_nat 100000.

(** Lines 120-134: the text body, the HTML body and [rawBuffer]
    ([None] for [null]). [rawBuffer] is assigned before the parser
    runs, so it survives a parser that raises. *)
Definition extract_content (message : EmailMessage)
  : string * string * option string :=
  match raw message with
  | None => ("", "", None)
  | Some rawBuffer =>
      let rawText := decodeText C rawBuffer in
      match parseEmailBody C rawText with
      | None => ("", "", Some rawBuffer)
      | Some (text, html) =>
          let textContent := JS.or text "" in
          let htmlContent := JS.or html "" in
          if negb (JS.truthy textContent) && negb (JS.truthy htmlContent)
          then (JS.slice0 RAW_TEXT_LIMIT (JS.or rawText ""), htmlContent, Some rawBuffer)
          else (textContent, htmlContent, Some rawBuffer)
      end
  end.

(** Line 149. *)
Definition keyId_of (env : Env) : string :=
  JS.or_opt (randomUUID env)
    (JS.String_of_Z (Date_now env) ++ "-" ++ JS.sliceFrom 2 (Math_random_36 env)).

(** The class [[a-z0-9@._-]] of line 150. *)
Definition SAFE_CLASS : list JS.ClassItem :=
  [JS.Range "a" "z"; JS.Range "0" "9"; JS.Unit "@"; JS.Unit "."; JS.Unit "_"; JS.Unit "-"].

(** Line 150. *)
Definition safeMailbox_of (mailbox : string) : string :=
  JS.replace_negclass SAFE_CLASS "_" (JS.toLowerCase (JS.or mailbox "unknown")).

(** [String(n).padStart(2, '0')] *)
Definition pad2 (n : Z) : string := JS.padStart 2 "0" (JS.String_of_Z n).

(** Lines 142-151. *)
Definition objectKey_of (env : Env) (mailbox : string) : string :=
  let now := new_Date env in
  let y := getUTCFullYear now in
  let m := pad2 (getUTCMonth now + 1) in
  let d := pad2 (getUTCDate now) in
  let hh := pad2 (getUTCHours now) in
  let mm := pad2 (getUTCMinutes now) in
  let ss := pad2 (getUTCSeconds now) in
  let keyId := keyId_of env in
  let safeMailbox := safeMailbox_of mailbox in
  JS.String_of_Z y ++ "/" ++ m ++ "/" ++ d ++ "/" ++ safeMailbox ++ "/"
    ++ hh ++ mm ++ ss ++ "-" ++ keyId ++ ".eml".

(** Lines 139-157: [objectKey] is assigned at line 151, before the
    write of lines 152-154; the [catch] logs and leaves it as it is. *)
Definition archive (env : Env) (mailbox : string) (rawBuffer : option string) : M string :=
  let objectKey := objectKey_of env mailbox in
  try_catch
    (match MAIL_EML env, rawBuffer with
     | Some r2, Some bytes => r2_put r2 objectKey bytes
     | _, _ => ret tt
     end)
    (fun _ => console R2PutFailed) ;;
  ret objectKey.

(** Lines 159-162. *)
Definition preview_of (textContent htmlContent : string) : string :=
  let plain :=
    if JS.truthy textContent && JS.truthy (JS.trim textContent) then textContent
    else JS.trim (JS.replace_spaces (JS.replace_tags (JS.or htmlContent ""))) in
  JS.slice0 120 (JS.or plain "").

(** Lines 163-166. *)
Definition verificationCode_of (subj textContent htmlContent : string) : string :=
  match extractVerificationCode C subj textContent htmlContent with
  | Some code => code
  | None => ""
  end.

(** Lines 168-181: find the mailbox of the address or create it. The
    result of the step is the identifier, and it raises when there is
    none (or a falsy one). *)
Definition find_or_create_mailbox (env : Env) (mailbox : string) : M Z :=
  d <- get_db ;;
  let resMb := Sql.select_mailbox_ids (JS.toLowerCase mailbox) d in
  mailboxId <-
    match resMb with
    | id :: _ => ret (Some id)
    | [] =>
        let parts := JS.split "@" (JS.toLowerCase (JS.or mailbox "")) in
        match nth_error parts 0, nth_error parts 1 with
        | Some localPartMb, Some domain =>
            if JS.truthy localPartMb && JS.truthy domain then
              Sql.insert_mailbox (JS.toLowerCase (JS.or mailbox "")) localPartMb domain
                                 (sql_now env) ;;
              d' <- get_db ;;
              ret (hd_error (Sql.select_mailbox_ids (JS.toLowerCase (JS.or mailbox "")) d'))
            else ret None
        | _, _ => ret None
        end
    end ;;
  match mailboxId with
  | Some id => if id =? 0 then throw MailboxResolutionError else ret id
  | None => throw MailboxResolutionError
  end.

(** Lines 183-195. *)
Definition toAddrs_of (message : EmailMessage) (resolvedRecipient : string) : string :=
  match to message with
  | ToArray entries =>
      JS.join ","
        (filter JS.truthy
           (List.map (fun v => match v with
                               | EntryString s => s
                               | EntryObject a => JS.or_opt a ""
                               | EntryNullish => ""
                               end) entries))
  | ToString s => s
  | ToAbsent => JS.or resolvedRecipient (JS.or (toHeader message) "")
  end.

Definition or_null (s : string) : option string :=
  if JS.truthy s then Some s else None.

(** Lines 120-209: extract the content, archive the raw message, find
    or create the mailbox and insert the metadata row. *)
Definition record_message (message : EmailMessage) (env : Env)
    (resolvedRecipient : string) : M unit :=
  let subj := subjectHeader message in
  let '(textContent, htmlContent, rawBuffer) := extract_content message in
  let mailbox := extractEmail C (JS.or resolvedRecipient (toHeader message)) in
  let from := extractEmail C (fromHeader message) in
  objectKey <- archive env mailbox rawBuffer ;;
  let prev := preview_of textContent htmlContent in
  let verificationCode := verificationCode_of subj textContent htmlContent in
  mailboxId <- find_or_create_mailbox env mailbox ;;
  let toAddrs := toAddrs_of message resolvedRecipient in
  Sql.insert_message mailboxId from (JS.or toAddrs "") (JS.or subj NO_SUBJECT)
    (or_null verificationCode) (or_null prev) "mail-eml" (JS.or objectKey "").

(** Lines 94-209, the body of the outer [try]. *)
Definition email_body (message : EmailMessage) (env : Env) : M unit :=
  resolvedRecipient <- resolve_recipient message ;;
  let resolvedRecipientAddr := extractEmail C resolvedRecipient in
  dispatch_forward resolvedRecipientAddr ;;
  record_message message env resolvedRecipient.

(** Lines 84-213. *)
Definition email (message : EmailMessage) (env : Env) (w : World) : World :=
  if db_reachable env then
    exec (try_catch (email_body message env) (fun err => console (EmailHandlingError err))) w
  else exec (console DbConnectFailed) w.

End Email.

(** ** The [scheduled] handler *)

(** Line 228. *)
Definition EXPIRE_MINUTES : Z := 30.

(** Lines 244-246: a delete that fails is logged, and the loop goes on.
    The deletes are handed to [ctx.waitUntil] and not awaited: the world
    after the step is the one in which they have settled, and the place
    of their events among the later events of the sweep is not fixed by
    the code. *)
Fixpoint delete_blobs (r2 : R2Binding) (keys : list string) : M unit :=
  match keys with
  | [] => ret tt
  | key :: rest =>
      try_catch (r2_delete r2 key) (fun _ => console (R2DeleteFailed key)) ;;
      delete_blobs r2 rest
  end.

(** Lines 230-267, the body of the [try], the three statements reading
    the same second of the datastore's clock. *)
Definition scheduled_body (env : Env) : M unit :=
  d <- get_db ;;
  let expiredMessages := Sql.select_expired_messages EXPIRE_MINUTES (sql_now env) d in
  match MAIL_EML env, expiredMessages with
  | Some r2, _ :: _ =>
      let keys := filter JS.truthy (List.map snd expiredMessages) in
      delete_blobs r2 keys
  | _, _ => ret tt
  end ;;
  d1 <- get_db ;;
  set_db (Sql.delete_expired_messages EXPIRE_MINUTES (sql_now env) d1) ;;
  d2 <- get_db ;;
  set_db (Sql.delete_expired_mailboxes EXPIRE_MINUTES (sql_now env) d2) ;;
  console SweepDone.

(** Lines 218-271. *)
Definition scheduled (env : Env) (w : World) : World :=
  if db_reachable env then
    exec (try_catch (scheduled_body env) (fun _ => console SweepFailed)) w
  else exec (console DbConnectFailed) w.

(** ** The clock of each statement *)



(** ** The awaited lookup *)

(** Line 113: [await getForwardTarget(DB, addr)] returns a target or
    [null], or it rejects. *)
Definition Lookup : Type := DB -> string -> Outcome (option string).

(** Lines 113-118: a lookup that rejects raises before either forwarder
    is called. *)
Definition dispatch_forward_awaiting (lookup : Lookup) (resolvedRecipientAddr : string)
  : M unit :=
  d <- get_db ;;
  mailboxForwardTo <- (fun w => (lookup d resolvedRecipientAddr, w)) ;;
  match mailboxForwardTo with
  | Some target =>
      if JS.truthy target then emit (ForwardByMailboxConfig target)
      else emit (ForwardByLocalPart (localPart_of resolvedRecipientAddr))
  | None => emit (ForwardByLocalPart (localPart_of resolvedRecipientAddr))
  end.

(** Lines 94-209 with the awaited lookup. *)
Definition email_body_awaiting (C : Collaborators) (lookup : Lookup)
    (message : EmailMessage) (env : Env) : M unit :=
  resolvedRecipient <- resolve_recipient message ;;
  let resolvedRecipientAddr := extractEmail C resolvedRecipient in
  dispatch_forward_awaiting lookup resolvedRecipientAddr ;;
  record_message C message env resolvedRecipient.

(** Lines 84-213 with the awaited lookup; [email] is the handler for the
    lookup that returns what [getForwardTarget] gives. *)
Definition email_awaiting (C : Collaborators) (lookup : Lookup)
    (message : EmailMessage) (env : Env) (w : World) : World :=
  if db_reachable env then
    exec (try_catch (email_body_awaiting C lookup message env)
                    (fun err => console (EmailHandlingError err))) w
  else exec (console DbConnectFailed) w.

(** The lookup that returns what [getForwardTarget] gives. *)
Definition returning (C : Collaborators) : Lookup :=
  fun d addr => Returned (getForwardTarget C d addr).

(** ** The [fetch] handler *)

Module Http.

(** A header list: names with their values, in order. Names compare
    without regard to case. *)
Definition Headers : Type := list (string * string).

Definition name_eqb (a b : string) : bool :=
  (JS.toLowerCase a =? JS.toLowerCase b)%string.

(** [headers.get(name)]: the values under the name, joined by [", "];
    [null] when there is none. *)
Definition get (name : string) (h : Headers) : option string :=
  match List.map snd (filter (fun kv => name_eqb (fst kv) name) h) with
  | [] => None
  | values => Some (JS.join ", " values)
  end.

(** [headers.set(name, value)]: the first header of that name takes the
    value and the others of that name go; with none, the header is
    appended. [found] tells that the first one has been met. *)
Fixpoint set_from (found : bool) (name value : string) (h : Headers) : Headers :=
  match h with
  | [] => if found then [] else [(name, value)]
  | (k, v) :: r =>
      if name_eqb k name then
        if found then set_from true name value r
        else (k, value) :: set_from true name value r
      else (k, v) :: set_from found name value r
  end.

Definition set (name value : string) (h : Headers) : Headers :=
  set_from false name value h.

Record Request : Type := mkRequest {
  method : string;
  url : string
}.

(** A response: [body] is [None] for a [null] body. *)
Record Response : Type := mkResponse {
  status : Z;
  statusText : string;
  headers : Headers;
  body : option string
}.

(** [new Response(body, { status, statusText, headers })] for a body
    that is a stream or [null]: a [RangeError] ([None]) for a status
    outside 200 .. 599. *)
Definition new_Response (b : option string) (st : Z) (text : string) (h : Headers)
  : option Response :=
  if (200 <=? st) && (st <=? 599) then Some (mkResponse st text h b) else None.

(** [new Response(text, { status })] for a string body: the body gets
    its content type. *)
Definition new_text_Response (text : string) (st : Z) : option Response :=
  new_Response (Some text) st "" [("content-type", "text/plain;charset=UTF-8")].

(** Lines 19-31. The argument is [None] for a falsy response; the result
    is [None] when the constructor raises. *)
Definition addCorsHeaders (response : option Response) : option (option Response) :=
  match response with
  | None => Some None
  | Some r =>
      let newHeaders := headers r in
      let newHeaders := set "Access-Control-Allow-Origin" "*" newHeaders in
      let newHeaders :=
        set "Access-Control-Allow-Methods" "GET, POST, PUT, DELETE, OPTIONS" newHeaders in
      let newHeaders :=
        set "Access-Control-Allow-Headers" "Content-Type, Authorization" newHeaders in
      option_map Some (new_Response (body r) (status r) (statusText r) newHeaders)
  end.

(** The class [[,\s]] of line 62. *)
Definition is_separator (c : ascii) : bool := Ascii.eqb c "," || JS.isWhiteSpace c.

(** [s.split(/[,\s]+/)]: the pieces between the maximal runs of
    separators; [inrun] tells that the unit before was a separator. *)
Fixpoint split_separators (inrun : bool) (s : string) : list string :=
  match s with
  | EmptyString => [EmptyString]
  | String c r =>
      if is_separator c then
        if inrun then split_separators true r
        else EmptyString :: split_separators true r
      else
        match split_separators false r with
        | piece :: pieces => String c piece :: pieces
        | [] => [String c EmptyString]
        end
  end.

(** Lines 61-64, for [env.MAIL_DOMAIN] a string or absent. *)
Definition MAIL_DOMAINS_of (MAIL_DOMAIN : option string) : list string :=
  filter JS.truthy
    (List.map JS.trim
       (split_separators false (JS.or_opt MAIL_DOMAIN "temp.example.com"))).

(** What [fetch] reads of its environment besides the handlers' [Env]. *)
Record FetchEnv : Type := mkFetchEnv {
  worker : Env;
  MAIL_DOMAIN : option string
}.

(** A step of [fetch] that may reject: [None] for a raised exception. *)
Definition Step (A : Type) : Type := World -> option A * World.

(** The router with its authentication middleware and the asset manager:
    imported from modules outside [server.js], they are parameters. Each
    gives a response or a falsy value, or rejects, and may change the
    world. *)
Record Services : Type := mkServices {
  router_handle : Request -> FetchEnv -> Step (option Response);
  handleAssetRequest : Request -> FetchEnv -> list string -> Step (option Response)
}.

(** The response of lines 40-48. *)
Definition preflight_response : option Response :=
  new_Response None 204 ""
    [("Access-Control-Allow-Origin", "*");
     ("Access-Control-Allow-Methods", "GET, POST, PUT, DELETE, OPTIONS");
     ("Access-Control-Allow-Headers", "Content-Type, Authorization");
     ("Access-Control-Max-Age", "86400")].

(** The body of the response of line 57. *)
Definition DB_FAILED_TEXT : string := "数据库连接失败，请检查配置".

(** Lines 37-79. *)
Definition fetch (K : Services) (request : Request) (env : FetchEnv) : Step (option Response) :=
  fun w =>
    if (method request =? "OPTIONS")%string then (option_map Some preflight_response, w)
    else if negb (db_reachable (worker env)) then
      let w1 := exec (console DbConnectFailed) w in
      match new_text_Response DB_FAILED_TEXT 500 with
      | Some r => (addCorsHeaders (Some r), w1)
      | None => (None, w1)
      end
    else
      let MAIL_DOMAINS := MAIL_DOMAINS_of (MAIL_DOMAIN env) in
      match router_handle K request env w with
      | (None, w1) => (None, w1)
      | (Some (Some routeResponse), w1) => (addCorsHeaders (Some routeResponse), w1)
      | (Some None, w1) =>
          match handleAssetRequest K request env MAIL_DOMAINS w1 with
          | (None, w2) => (None, w2)
          | (Some assetResponse, w2) => (addCorsHeaders assetResponse, w2)
          end
      end.

End Http.

(** ** Sample worlds *)

Module Sample.

(** Collaborators for the examples: the address is taken as it is, no
    mailbox has a forward target, the body is the whole text, and no
    verification code is found. *)
Definition plain : Collaborators :=
  mkCollaborators (fun s => s) (fun _ _ => None) (fun t => Some (t, ""))
                  (fun _ _ _ => Some "") (fun b => b).

(** As [plain], with every mailbox forwarding to one address. *)
Definition forwarding : Collaborators :=
  mkCollaborators (fun s => s) (fun _ _ => Some "owner@example.org")
                  (fun t => Some (t, "")) (fun _ _ _ => Some "") (fun b => b).

Definition no_headers : string -> option string := fun _ => None.

Definition date : UTCDate := mkUTCDate 2024 2 5 7 8 9.

Definition up : R2Binding := mkR2Binding (fun _ => false) (fun _ => false).
Definition outage : R2Binding := mkR2Binding (fun _ => true) (fun _ => true).

Definition env_with (r2 : option R2Binding) : Env :=
  mkEnv true r2 date 1709622489000 (Some "3f2a") "0.k2j9x" 1709622489.

Definition empty : World := mkWorld (mkDB [] []) [] [].

Definition msg_to (addr : string) : EmailMessage :=
  mkEmailMessage no_headers (ToString addr) (Some "Subject: hi").

End Sample.

(** * Definitions for the statements *)

(** The recipient, the dispatch, the key and the preview as the
    specification words them, the predicates of the statements, and
    worlds to run the handlers on. *)

(** The recipient the envelope gives, in the spec's words: the first
    entry of a list (the string, or the address of a structured entry),
    the string itself, and nothing when the envelope is absent or cannot
    be read. *)
Definition spec_envelope_recipient (v : ToValue) : string :=
  match v with
  | ToArray (EntryString s :: _) => s
  | ToArray (EntryObject (Some a) :: _) => a
  | ToString s => s
  | _ => ""
  end.

(** The canonical recipient, in the spec's words: the envelope's value,
    and the header's when the envelope gives none. *)
Definition spec_recipient (message : EmailMessage) : string :=
  if JS.truthy (spec_envelope_recipient (to message))
  then spec_envelope_recipient (to message)
  else toHeader message.

Definition is_forward (e : Event) : bool :=
  match e with
  | ForwardByMailboxConfig _ | ForwardByLocalPart _ => true
  | _ => false
  end.

(** The events a list holds that are forwarding dispatches. *)
Definition forwards (evs : list Event) : list Event := filter is_forward evs.

(** A step is quiet when all it does to the trace is to add events, none
    of them a forwarding dispatch. *)
Definition quiet {A : Type} (m : M A) : Prop :=
  forall w, exists evs, trace (snd (m w)) = (trace w ++ evs)%list /\ forwards evs = [].

(** A step keeps the datastore when it leaves every table as it is. *)
Definition keeps_db {A : Type} (m : M A) : Prop :=
  forall w, db (snd (m w)) = db w.

(** The address of the canonical recipient (line 110). *)
Definition recipient_address (C : Collaborators) (message : EmailMessage) : string :=
  extractEmail C (spec_recipient message).

(** The dispatch the spec asks for: to the mailbox's own target when the
    lookup gives one that is not empty, by the local part otherwise. *)
Definition spec_forward (C : Collaborators) (message : EmailMessage) (d : DB) : Event :=
  let addr := recipient_address C message in
  match getForwardTarget C d addr with
  | Some target =>
      if JS.truthy target then ForwardByMailboxConfig target
      else ForwardByLocalPart (localPart_of addr)
  | None => ForwardByLocalPart (localPart_of addr)
  end.

Definition add_event (w : World) (e : Event) : World :=
  mkWorld (db w) (bucket w) (trace w ++ [e]).

(** The forwarder lines 114-118 call for the value the lookup returned. *)
Definition forward_choice (target : option string) (addr : string) : Event :=
  match target with
  | Some t =>
      if JS.truthy t then ForwardByMailboxConfig t
      else ForwardByLocalPart (localPart_of addr)
  | None => ForwardByLocalPart (localPart_of addr)
  end.

(** An environment whose datastore cannot be reached. *)
Definition unreachable : Env :=
  mkEnv false None Sample.date 1709622489000 (Some "3f2a") "0.k2j9x" 1709622489.

(** A lookup that rejects every address. *)
Definition rejecting : Lookup := fun _ _ => Thrown SqlConstraintError.

(** What the archive step does to the world, case by case: nothing when
    there is no bucket or no raw message, a log when the write raises,
    the object stored otherwise. *)
Definition archive_world (env : Env) (mailbox : string) (rawBuffer : option string)
    (w : World) : World :=
  match MAIL_EML env, rawBuffer with
  | Some r2, Some bytes =>
      if put_raises r2 (objectKey_of env mailbox)
      then add_event w (Console R2PutFailed)
      else mkWorld (db w)
                   ((objectKey_of env mailbox, bytes)
                      :: bucket_remove (objectKey_of env mailbox) (bucket w))
                   (trace w ++ [R2Put (objectKey_of env mailbox)])
  | _, _ => w
  end.

(** The provisioner reads and writes the datastore only: its outcome and
    the datastore it leaves, as functions of the datastore it finds. *)
Definition provision (env : Env) (mailbox : string) (d : DB) : Outcome Z * DB :=
  let r := find_or_create_mailbox env mailbox (mkWorld d [] []) in
  (fst r, db (snd r)).

(** Whether a string holds the unit [c]. *)
Fixpoint contains (c : ascii) (s : string) : bool :=
  match s with
  | EmptyString => false
  | String x r => Ascii.eqb x c || contains c r
  end.

(** The raw message as the archiver gets it. *)
Definition rawBuffer_of (C : Collaborators) (message : EmailMessage) : option string :=
  snd (extract_content C message).

Module SweepSample.

(** The datastore's clock at the sweep. *)
Definition now : Z := 1709622489.

(** A favorited mailbox created 31 minutes before the sweep. *)
Definition favorite : Mailbox :=
  mkMailbox 1 "keep@temp.example.com" "keep" "temp.example.com" None
            (now - 31 * 60) (now - 31 * 60) 0 1.

(** A pinned mailbox created a year before the sweep. *)
Definition pinned : Mailbox :=
  mkMailbox 2 "old@temp.example.com" "old" "temp.example.com" None
            (now - 365 * 24 * 3600) (now - 60) 1 0.

(** A mailbox created 31 minutes before the sweep, with no flag. *)
Definition stale : Mailbox :=
  mkMailbox 3 "gone@temp.example.com" "gone" "temp.example.com" None
            (now - 31 * 60) (now - 31 * 60) 0 0.

(** A message of the favorited mailbox, its blob archived. *)
Definition letter : MessageRow :=
  mkMessageRow 1 1 "someone@example.org" "keep@temp.example.com" "hello" None
               (Some "hello there") "mail-eml"
               "2024/03/05/keep@temp.example.com/063709-aa.eml".

(** A mailbox created 5 minutes before the sweep, with no flag. *)
Definition fresh : Mailbox :=
  mkMailbox 4 "new@temp.example.com" "new" "temp.example.com" None
            (now - 5 * 60) (now - 5 * 60) 0 0.

(** A message of the pinned mailbox, with no blob. *)
Definition note : MessageRow :=
  mkMessageRow 2 2 "someone@example.org" "old@temp.example.com" "note" None
               (Some "a note") "mail-eml" "".

(** A message of the mailbox created 5 minutes before the sweep. *)
Definition hello : MessageRow :=
  mkMessageRow 3 4 "someone@example.org" "new@temp.example.com" "hello" None
               (Some "hello") "mail-eml"
               "2024/03/05/new@temp.example.com/070309-bb.eml".

Definition world : World :=
  mkWorld (mkDB [favorite; pinned; stale; fresh] [letter; note; hello])
          [("2024/03/05/keep@temp.example.com/063709-aa.eml", "raw")] [].

Definition env : Env :=
  mkEnv true (Some Sample.up) Sample.date 1709622489000 (Some "3f2a") "0.k2j9x" now.

End SweepSample.

(** The decimal digit [n], for [0 <= n <= 9]. *)
Definition digit (n : Z) : ascii := ascii_of_N (48 + Z.to_N n).

(** A number below 100 on two digits, zero-padded. *)
Definition two_digits (n : Z) : string :=
  String (digit (n / 10)) (String (digit (n mod 10)) "").

(** A number below 10000 on four digits. *)
Definition four_digits (n : Z) : string :=
  String (digit (n / 1000))
    (String (digit (n / 100 mod 10)) (String (digit (n / 10 mod 10))
       (String (digit (n mod 10)) ""))).

(** The units the spec lets through: [a-z], [0-9], ['@'], ['.'], ['_']
    and ['-']. *)
Definition spec_safe_unit (c : ascii) : bool :=
  let n := JS.code c in
  (((97 <=? n) && (n <=? 122)) || ((48 <=? n) && (n <=? 57))
   || (n =? 64) || (n =? 46) || (n =? 95) || (n =? 45))%N.

(** The sanitized mailbox, in the spec's words: the address in lower
    case, every unit outside the safe ones replaced by ['_']; and
    [unknown] for the empty address. *)
Definition spec_sanitize (mailbox : string) : string :=
  match mailbox with
  | EmptyString => "unknown"
  | _ => JS.map (fun c => if spec_safe_unit (JS.lower_unit c) then JS.lower_unit c else "_"%char)
                mailbox
  end.

Fixpoint all_units (p : ascii -> bool) (s : string) : bool :=
  match s with
  | EmptyString => true
  | String c r => p c && all_units p r
  end.

(** The fields of a date as the UTC getters of a date of the years 1000
    to 9999 return them. *)
Definition utc_fields_in_range (d : UTCDate) : Prop :=
  1000 <= getUTCFullYear d <= 9999
  /\ 0 <= getUTCMonth d <= 11
  /\ 1 <= getUTCDate d <= 31
  /\ 0 <= getUTCHours d <= 23
  /\ 0 <= getUTCMinutes d <= 59
  /\ 0 <= getUTCSeconds d <= 59.

(** The decimal numeral with the digit [k] in front of [l]. *)
Definition decimal_digit (k : Z) (l : Decimal.uint) : Decimal.uint :=
  match k with
  | 0 => Decimal.D0 l
  | 1 => Decimal.D1 l
  | 2 => Decimal.D2 l
  | 3 => Decimal.D3 l
  | 4 => Decimal.D4 l
  | 5 => Decimal.D5 l
  | 6 => Decimal.D6 l
  | 7 => Decimal.D7 l
  | 8 => Decimal.D8 l
  | _ => Decimal.D9 l
  end.

(** The preview, in the spec's words: the trimmed plain text when it is
    not empty, and otherwise the HTML with its tags stripped, white space
    collapsed and trimmed; the first 120 units of it. *)
Definition spec_preview (text html : string) : string :=
  if JS.truthy (JS.trim text) then JS.slice0 120 (JS.trim text)
  else JS.slice0 120 (JS.trim (JS.replace_spaces (JS.replace_tags html))).

(** The preview the handler derives: the plain text as it is, not
    trimmed, when trimming leaves it non-empty; the HTML path otherwise. *)
Definition amended_preview (text html : string) : string :=
  if JS.truthy (JS.trim text) then JS.slice0 120 text
  else JS.slice0 120 (JS.trim (JS.replace_spaces (JS.replace_tags html))).

(** No two adjacent units of [s] are white space ([prev] tells whether
    the unit before [s] was). *)
Fixpoint single_spaced (prev : bool) (s : string) : bool :=
  match s with
  | EmptyString => true
  | String c r =>
      if JS.isWhiteSpace c then negb prev && single_spaced true r
      else single_spaced false r
  end.

(** Every white-space unit of [s] is a space. *)
Definition spaces_only (s : string) : bool :=
  all_units (fun c => negb (JS.isWhiteSpace c) || Ascii.eqb c " ") s.

(** The units of [s] that are not white space, in order. *)
Fixpoint visible (s : string) : string :=
  match s with
  | EmptyString => EmptyString
  | String c r => if JS.isWhiteSpace c then visible r else String c (visible r)
  end.

Fixpoint last_unit (s : string) : option ascii :=
  match s with
  | EmptyString => None
  | String c EmptyString => Some c
  | String _ r => last_unit r
  end.

Definition first_unit (s : string) : option ascii :=
  match s with
  | EmptyString => None
  | String c _ => Some c
  end.

(** A unit at an end of a string is not white space. *)
Definition not_space_at (end_unit : option ascii) : bool :=
  match end_unit with
  | Some c => negb (JS.isWhiteSpace c)
  | None => true
  end.

(** No suffix of [s] begins with a match of [/<[^>]+>/]. *)
Fixpoint tag_free (s : string) : bool :=
  match s with
  | EmptyString => true
  | String _ r =>
      match JS.tag_match s with
      | Some _ => false
      | None => tag_free r
      end
  end.

(** The three headers [addCorsHeaders] sets, as a response carries them. *)
Definition cors_headers_set (r : Http.Response) : Prop :=
  Http.get "access-control-allow-origin" (Http.headers r) = Some "*"
  /\ Http.get "access-control-allow-methods" (Http.headers r)
     = Some "GET, POST, PUT, DELETE, OPTIONS"
  /\ Http.get "access-control-allow-headers" (Http.headers r)
     = Some "Content-Type, Authorization".

(** A header name that is none of the three of [addCorsHeaders]. *)
Definition not_cors_name (name : string) : Prop :=
  Http.name_eqb name "Access-Control-Allow-Origin" = false
  /\ Http.name_eqb name "Access-Control-Allow-Methods" = false
  /\ Http.name_eqb name "Access-Control-Allow-Headers" = false.

(** A domain of the list: not empty, and free of commas and white space. *)
Definition clean_domain (d : string) : bool :=
  JS.truthy d && all_units (fun c => negb (Http.is_separator c)) d.

Module HttpSample.

(** A router that answers every request with a JSON body and an origin
    of its own, and an asset manager that is never reached. *)
Definition routed : Http.Response :=
  Http.mkResponse 200 "OK"
    [("content-type", "application/json");
     ("access-control-allow-origin", "https://mail.example.org")]
    (Some "{}").

Definition services : Http.Services :=
  Http.mkServices (fun _ _ w => (Some (Some routed), w)) (fun _ _ _ w => (Some None, w)).

Definition env : Http.FetchEnv :=
  Http.mkFetchEnv (Sample.env_with None) (Some "a.example.com, b.example.com").

End HttpSample.


(** No two mailbox rows have the same address. *)
Definition unique_addresses (d : DB) : Prop := NoDup (List.map address (mailboxes d)).

(** [r2.get(key)]: the bytes stored under the key. *)
Fixpoint bucket_get (key : string) (b : Bucket) : option string :=
  match b with
  | [] => None
  | (k, bytes) :: r => if (k =? key)%string then Some bytes else bucket_get key r
  end.

(** The message row the handler inserts for a message whose mailbox
    resolved to [id], into a table [msgs]. *)
Definition recorded_row (C : Collaborators) (message : EmailMessage) (env : Env)
    (msgs : list MessageRow) (id : Z) : MessageRow :=
  mkMessageRow
    (Sql.next_id (List.map msg_id msgs)) id
    (extractEmail C (fromHeader message))
    (JS.or (toAddrs_of message (spec_recipient message)) "")
    (JS.or (subjectHeader message) NO_SUBJECT)
    (or_null (verificationCode_of C (subjectHeader message)
                (fst (fst (extract_content C message)))
                (snd (fst (extract_content C message)))))
    (or_null (preview_of (fst (fst (extract_content C message)))
                         (snd (fst (extract_content C message)))))
    "mail-eml"
    (JS.or (objectKey_of env (recipient_address C message)) "").

(** The keys of the blobs a sweep asks the bucket to delete. *)
Definition swept_keys (env : Env) (d : DB) : list string :=
  filter JS.truthy
    (List.map snd (Sql.select_expired_messages EXPIRE_MINUTES (sql_now env) d)).

(** The mailbox row the provisioner inserts for an address whose
    lowercase form splits into [lp] and [dm]. *)
Definition created_mailbox (env : Env) (mailbox lp dm : string) (d : DB) : Mailbox :=
  mkMailbox (Sql.next_id (List.map mb_id (mailboxes d)))
            (JS.toLowerCase mailbox) lp dm None (sql_now env) (sql_now env) 0 0.

(** The bucket after the deletes the sweep asks for: a key whose delete
    raises keeps its object. *)
Definition swept_bucket (r2 : R2Binding) (keys : list string) (b : Bucket) : Bucket :=
  fold_left (fun acc key => if delete_raises r2 key then acc else bucket_remove key acc)
            keys b.

(** What a delete of the sweep adds to the trace. *)
Definition is_delete_event (e : Event) : bool :=
  match e with
  | R2Delete _ | Console (R2DeleteFailed _) => true
  | _ => false
  end.

(** * Properties *)

(** ** Strings *)

Lemma truthy_false_iff (s : string) : JS.truthy s = false <-> s = "".
Proof. destruct s; simpl; split; intro H; congruence. Qed.

Lemma truthy_true_iff (s : string) : JS.truthy s = true <-> s <> "".
Proof. destruct s; simpl; split; intro H; congruence. Qed.

Lemma or_empty_r (s : string) : JS.or s "" = s.
Proof. destruct s; reflexivity. Qed.

Lemma length_slice0 (n : nat) (s : string) :
  (String.length (JS.slice0 n s) <= n)%nat.
Proof.
  revert s; induction n as [|n IH]; intros [|c s]; simpl; try lia.
  specialize (IH s); lia.
Qed.

(** ** The address resolver *)

Lemma read_envelopeTo_run (message : EmailMessage) (w : World) :
  read_envelopeTo message w = (Returned (spec_envelope_recipient (to message)), w).
Proof.
  unfold read_envelopeTo, try_catch.
  destruct (to message) as [[|[s|[a|]|] rest]|s|]; simpl; try reflexivity.
  now rewrite or_empty_r.
Qed.

Lemma resolve_recipient_run (message : EmailMessage) (w : World) :
  resolve_recipient message w = (Returned (spec_recipient message), w).
Proof.
  unfold resolve_recipient, bind. rewrite read_envelopeTo_run.
  unfold ret, spec_recipient. rewrite or_empty_r. reflexivity.
Qed.

(** C9. For every envelope (a list of entries, a string, or absent) and
    every header, resolving the recipient returns, without raising and
    without touching the world, the envelope's value when it is not empty
    and the header's value otherwise; where neither gives an address the
    result is the empty string. *)
Theorem C9_recipient_prefers_envelope :
  forall (message : EmailMessage) (w : World),
    resolve_recipient message w = (Returned (spec_recipient message), w)
    /\ spec_recipient message =
         JS.or (spec_envelope_recipient (to message)) (toHeader message)
    /\ spec_recipient (mkEmailMessage (fun _ => None) (ToArray [EntryNullish]) None) = ""
    /\ spec_recipient (mkEmailMessage (fun _ => None) ToAbsent None) = "".
Proof.
  intros message w. split; [apply resolve_recipient_run|].
  split; [reflexivity|]. split; reflexivity.
Qed.

(** The address of line 136 is the address of line 110: when the
    resolved recipient is empty, so is the header. *)
Lemma recipient_or_header (message : EmailMessage) :
  JS.or (spec_recipient message) (toHeader message) = spec_recipient message.
Proof.
  unfold spec_recipient.
  destruct (JS.truthy (spec_envelope_recipient (to message))) eqn:E.
  - unfold JS.or. now rewrite E.
  - unfold JS.or. destruct (JS.truthy (toHeader message)); reflexivity.
Qed.

(** ** What a step leaves alone *)

Create HintDb frame.

Lemma quiet_ret {A : Type} (a : A) : quiet (ret a).
Proof. intro w; exists []; simpl; now rewrite app_nil_r. Qed.

Lemma quiet_throw {A : Type} (e : Exn) : quiet (@throw A e).
Proof. intro w; exists []; simpl; now rewrite app_nil_r. Qed.

Lemma quiet_get_db : quiet get_db.
Proof. intro w; exists []; simpl; now rewrite app_nil_r. Qed.

Lemma quiet_set_db (d : DB) : quiet (set_db d).
Proof. intro w; exists []; simpl; now rewrite app_nil_r. Qed.

Lemma quiet_console (t : LogTag) : quiet (console t).
Proof. intro w; exists [Console t]; simpl; auto. Qed.

Lemma quiet_bind {A B : Type} (m : M A) (k : A -> M B) :
  quiet m -> (forall a, quiet (k a)) -> quiet (bind m k).
Proof.
  intros Hm Hk w. unfold bind.
  destruct (Hm w) as [evs [Ht Hf]].
  destruct (m w) as [[a|e] w1]; simpl in *.
  - destruct (Hk a w1) as [evs' [Ht' Hf']].
    exists (evs ++ evs')%list. rewrite Ht', Ht, app_assoc. split; [reflexivity|].
    unfold forwards in *. now rewrite filter_app, Hf, Hf'.
  - exists evs. auto.
Qed.

Lemma quiet_try_catch {A : Type} (m : M A) (h : Exn -> M A) :
  quiet m -> (forall e, quiet (h e)) -> quiet (try_catch m h).
Proof.
  intros Hm Hh w. unfold try_catch.
  destruct (Hm w) as [evs [Ht Hf]].
  destruct (m w) as [[a|e] w1]; simpl in *.
  - exists evs. auto.
  - destruct (Hh e w1) as [evs' [Ht' Hf']].
    exists (evs ++ evs')%list. rewrite Ht', Ht, app_assoc. split; [reflexivity|].
    unfold forwards in *. now rewrite filter_app, Hf, Hf'.
Qed.

Lemma quiet_r2_put (r2 : R2Binding) (key bytes : string) : quiet (r2_put r2 key bytes).
Proof.
  unfold r2_put. destruct (put_raises r2 key); [apply quiet_throw|].
  intro w; exists [R2Put key]; simpl; auto.
Qed.

Lemma quiet_r2_delete (r2 : R2Binding) (key : string) : quiet (r2_delete r2 key).
Proof.
  unfold r2_delete. destruct (delete_raises r2 key); [apply quiet_throw|].
  intro w; exists [R2Delete key]; simpl; auto.
Qed.

#[export] Hint Resolve quiet_ret quiet_throw quiet_get_db quiet_set_db quiet_console
  quiet_r2_put quiet_r2_delete : frame.

(** Splits a goal on a composed step into goals on its parts. *)
Ltac frame_step :=
  repeat (first
    [ solve [auto with frame]
    | progress cbv zeta
    | apply quiet_bind; [|intro]
    | apply quiet_try_catch; [|intro]
    | match goal with
      | |- quiet (match ?x with _ => _ end) => destruct x
      | |- quiet (if ?b then _ else _) => destruct b
      end ]).

Lemma quiet_insert_mailbox (a l d : string) (now : Z) : quiet (Sql.insert_mailbox a l d now).
Proof. unfold Sql.insert_mailbox. frame_step. Qed.

Lemma quiet_insert_message (i : Z) (f t s : string) (c p : option string) (b k : string) :
  quiet (Sql.insert_message i f t s c p b k).
Proof. unfold Sql.insert_message. frame_step. Qed.

#[export] Hint Resolve quiet_insert_mailbox quiet_insert_message : frame.

Lemma quiet_archive (env : Env) (mailbox : string) (rawBuffer : option string) :
  quiet (archive env mailbox rawBuffer).
Proof. unfold archive. frame_step. Qed.

Lemma quiet_find_or_create (env : Env) (mailbox : string) :
  quiet (find_or_create_mailbox env mailbox).
Proof. unfold find_or_create_mailbox. frame_step. Qed.

#[export] Hint Resolve quiet_archive quiet_find_or_create : frame.

Lemma quiet_record_message (C : Collaborators) (message : EmailMessage) (env : Env)
    (resolvedRecipient : string) :
  quiet (record_message C message env resolvedRecipient).
Proof.
  unfold record_message.
  destruct (extract_content C message) as [[textContent htmlContent] rawBuffer].
  frame_step.
Qed.

(** ** The forwarding decider *)

Lemma dispatch_forward_run (C : Collaborators) (message : EmailMessage) (w : World) :
  dispatch_forward C (recipient_address C message) w
  = (Returned tt, add_event w (spec_forward C message (db w))).
Proof.
  unfold dispatch_forward, bind, get_db, spec_forward.
  destruct (getForwardTarget C (db w) (recipient_address C message)) as [target|];
    [destruct (JS.truthy target)|]; reflexivity.
Qed.

Lemma email_body_run (C : Collaborators) (message : EmailMessage) (env : Env) (w : World) :
  email_body C message env w
  = record_message C message env (spec_recipient message)
      (add_event w (spec_forward C message (db w))).
Proof.
  unfold email_body, bind. rewrite resolve_recipient_run.
  fold (recipient_address C message). now rewrite dispatch_forward_run.
Qed.

Lemma spec_forward_is_forward (C : Collaborators) (message : EmailMessage) (d : DB) :
  is_forward (spec_forward C message d) = true.
Proof.
  unfold spec_forward.
  destruct (getForwardTarget C d (recipient_address C message)) as [t|];
    [destruct (JS.truthy t)|]; reflexivity.
Qed.

Lemma forward_choice_is_forward (v : option string) (addr : string) :
  is_forward (forward_choice v addr) = true.
Proof. destruct v as [t|]; [simpl; destruct (JS.truthy t)|]; reflexivity. Qed.

Lemma dispatch_forward_awaiting_returned (lookup : Lookup) (addr : string)
    (v : option string) (w : World) :
  lookup (db w) addr = Returned v ->
  dispatch_forward_awaiting lookup addr w = (Returned tt, add_event w (forward_choice v addr)).
Proof.
  intro H. unfold dispatch_forward_awaiting, bind, get_db. rewrite H.
  destruct v as [t|]; [simpl; destruct (JS.truthy t)|]; reflexivity.
Qed.

Lemma dispatch_forward_awaiting_rejected (lookup : Lookup) (addr : string)
    (e : Exn) (w : World) :
  lookup (db w) addr = Thrown e ->
  dispatch_forward_awaiting lookup addr w = (Thrown e, w).
Proof.
  intro H. unfold dispatch_forward_awaiting, bind, get_db. now rewrite H.
Qed.

(** The handler of the lookup that returns is [email]. *)
Lemma email_awaiting_returning (C : Collaborators) (message : EmailMessage) (env : Env)
    (w : World) :
  email_awaiting C (returning C) message env w = email C message env w.
Proof.
  unfold email_awaiting, email. destruct (db_reachable env); [|reflexivity].
  unfold exec, try_catch.
  replace (email_body_awaiting C (returning C) message env w)
    with (email_body C message env w); [reflexivity|].
  unfold email_body_awaiting, email_body, bind. rewrite resolve_recipient_run.
  fold (recipient_address C message). rewrite dispatch_forward_run.
  now rewrite (dispatch_forward_awaiting_returned (returning C) _
                 (getForwardTarget C (db w) (recipient_address C message)) w eq_refl).
Qed.

(** The trace of a message whose lookup returned: the forwarding
    dispatch first, and no other dispatch after it. *)
Lemma email_awaiting_trace (C : Collaborators) (lookup : Lookup) (message : EmailMessage)
    (env : Env) (w : World) (v : option string) :
  db_reachable env = true ->
  lookup (db w) (recipient_address C message) = Returned v ->
  exists evs,
    trace (email_awaiting C lookup message env w)
    = (trace w ++ forward_choice v (recipient_address C message) :: evs)%list
    /\ forwards evs = [].
Proof.
  intros Hdb Hv. unfold email_awaiting. rewrite Hdb. unfold exec, try_catch.
  unfold email_body_awaiting, bind. rewrite resolve_recipient_run.
  fold (recipient_address C message).
  rewrite (dispatch_forward_awaiting_returned lookup _ v w Hv).
  set (w1 := add_event w (forward_choice v (recipient_address C message))).
  destruct (quiet_record_message C message env (spec_recipient message) w1)
    as [evs [Ht Hf]].
  destruct (record_message C message env (spec_recipient message) w1) as [[u|e] w2];
    simpl in *.
  - exists evs. rewrite Ht. unfold w1; simpl. rewrite <- app_assoc. auto.
  - exists (evs ++ [Console (EmailHandlingError e)])%list.
    rewrite Ht. unfold w1; simpl. rewrite <- !app_assoc. split; [reflexivity|].
    unfold forwards in *. rewrite filter_app, Hf. reflexivity.
Qed.

(** A lookup that rejects reaches the outer [catch] before either
    forwarder is called: the run logs the error and does nothing else. *)
Lemma email_awaiting_rejected (C : Collaborators) (lookup : Lookup) (message : EmailMessage)
    (env : Env) (w : World) (e : Exn) :
  db_reachable env = true ->
  lookup (db w) (recipient_address C message) = Thrown e ->
  email_awaiting C lookup message env w = add_event w (Console (EmailHandlingError e)).
Proof.
  intros Hdb He. unfold email_awaiting. rewrite Hdb. unfold exec, try_catch.
  unfold email_body_awaiting, bind. rewrite resolve_recipient_run.
  fold (recipient_address C message).
  rewrite (dispatch_forward_awaiting_rejected lookup _ e w He). reflexivity.
Qed.

(** C7, as stated, fails: with the datastore out of reach the handler
    returns at line 90, and with a lookup that rejects it goes from line
    113 to the outer [catch]; in both runs neither forwarder is called. *)
Lemma C7_neither_forward_counterexample :
  forwards (trace (email Sample.forwarding (Sample.msg_to "box@temp.example.com")
                         unreachable Sample.empty)) = []
  /\ forwards (trace (email_awaiting Sample.forwarding rejecting
                                     (Sample.msg_to "box@temp.example.com")
                                     (Sample.env_with None) Sample.empty)) = [].
Proof. split; reflexivity. Qed.

(** C7, amended. For every inbound message for which the datastore
    connection is obtained and the awaited lookup of the forward target
    returns, the events the run adds hold exactly one forwarding
    dispatch: the mailbox-specific one when the lookup returned a
    non-empty target, the one by local part otherwise. When the
    connection fails, or the lookup rejects, the run adds one log and no
    dispatch. No run dispatches twice. [email] is the handler of the
    lookup that returns. *)
Theorem C7_one_forward_when_lookup_returns :
  forall (C : Collaborators) (lookup : Lookup) (message : EmailMessage) (env : Env)
         (w : World),
    email_awaiting C (returning C) message env w = email C message env w
    /\ (forall v,
          db_reachable env = true ->
          lookup (db w) (recipient_address C message) = Returned v ->
          exists evs,
            trace (email_awaiting C lookup message env w) = (trace w ++ evs)%list
            /\ forwards evs = [forward_choice v (recipient_address C message)]
            /\ (forall target,
                  v = Some target -> target <> "" ->
                  forwards evs = [ForwardByMailboxConfig target])
            /\ (JS.truthy_opt v = false ->
                forwards evs
                = [ForwardByLocalPart (localPart_of (recipient_address C message))]))
    /\ (db_reachable env = false ->
        email_awaiting C lookup message env w = add_event w (Console DbConnectFailed))
    /\ (forall e,
          db_reachable env = true ->
          lookup (db w) (recipient_address C message) = Thrown e ->
          email_awaiting C lookup message env w
          = add_event w (Console (EmailHandlingError e)))
    /\ (exists evs,
          trace (email_awaiting C lookup message env w) = (trace w ++ evs)%list
          /\ (List.length (forwards evs) <= 1)%nat).
Proof.
  intros C lookup message env w.
  assert (Hret : forall v,
            db_reachable env = true ->
            lookup (db w) (recipient_address C message) = Returned v ->
            exists evs,
              trace (email_awaiting C lookup message env w) = (trace w ++ evs)%list
              /\ forwards evs = [forward_choice v (recipient_address C message)]).
  { intros v Hdb Hv.
    destruct (email_awaiting_trace C lookup message env w v Hdb Hv) as [evs [Ht Hf]].
    exists (forward_choice v (recipient_address C message) :: evs).
    split; [exact Ht|].
    unfold forwards in *; simpl. now rewrite forward_choice_is_forward, Hf. }
  assert (Hdown : db_reachable env = false ->
                  email_awaiting C lookup message env w
                  = add_event w (Console DbConnectFailed)).
  { intro Hdb. unfold email_awaiting. now rewrite Hdb. }
  split; [apply email_awaiting_returning|].
  split; [|split; [exact Hdown|split; [apply email_awaiting_rejected|]]].
  - intros v Hdb Hv. destruct (Hret v Hdb Hv) as [evs [Ht Hone]].
    exists evs. split; [exact Ht|]. split; [exact Hone|]. split.
    + intros target -> Hne. rewrite Hone. simpl.
      apply truthy_true_iff in Hne. now rewrite Hne.
    + intro Hno. rewrite Hone.
      destruct v as [t|]; [simpl in *; now rewrite Hno | reflexivity].
  - destruct (db_reachable env) eqn:Hdb.
    + destruct (lookup (db w) (recipient_address C message)) as [v|e] eqn:Hv.
      * destruct (Hret v eq_refl eq_refl) as [evs [Ht Hone]].
        exists evs. split; [exact Ht|]. rewrite Hone. simpl. lia.
      * exists [Console (EmailHandlingError e)].
        rewrite (email_awaiting_rejected C lookup message env w e Hdb Hv).
        split; [reflexivity | simpl; lia].
    + exists [Console DbConnectFailed]. rewrite (Hdown eq_refl).
      split; [reflexivity | simpl; lia].
Qed.

Lemma C7_one_forward_when_lookup_returns_witness :
  exists evs,
    trace (email Sample.forwarding (Sample.msg_to "box@temp.example.com")
                 (Sample.env_with None) Sample.empty) = ([] ++ evs)%list
    /\ forwards evs = [ForwardByMailboxConfig "owner@example.org"].
Proof.
  destruct (C7_one_forward_when_lookup_returns Sample.forwarding
              (returning Sample.forwarding) (Sample.msg_to "box@temp.example.com")
              (Sample.env_with None) Sample.empty)
    as [Heq [Hret _]].
  destruct (Hret (Some "owner@example.org") eq_refl eq_refl) as [evs [Ht [_ [Hm _]]]].
  exists evs. split; [rewrite <- Heq; exact Ht|].
  apply (Hm "owner@example.org"); [reflexivity | discriminate].
Defined.

(** ** The archiver's write *)

Lemma archive_run (env : Env) (mailbox : string) (rawBuffer : option string) (w : World) :
  archive env mailbox rawBuffer w
  = (Returned (objectKey_of env mailbox), archive_world env mailbox rawBuffer w).
Proof.
  unfold archive, archive_world, bind, try_catch, r2_put.
  destruct (MAIL_EML env) as [r2|]; [destruct rawBuffer as [bytes|]|]; try reflexivity.
  destruct (put_raises r2 (objectKey_of env mailbox)); reflexivity.
Qed.

Lemma archive_world_db (env : Env) (mailbox : string) (rawBuffer : option string)
    (w : World) :
  db (archive_world env mailbox rawBuffer w) = db w.
Proof.
  unfold archive_world.
  destruct (MAIL_EML env) as [r2|]; [destruct rawBuffer as [bytes|]|]; try reflexivity.
  destruct (put_raises r2 (objectKey_of env mailbox)); reflexivity.
Qed.

Lemma archive_world_trace (env : Env) (mailbox : string) (rawBuffer : option string)
    (w : World) :
  exists evs,
    trace (archive_world env mailbox rawBuffer w) = (trace w ++ evs)%list
    /\ forwards evs = [].
Proof.
  pose proof (quiet_archive env mailbox rawBuffer w) as H.
  now rewrite archive_run in H.
Qed.

(** ** The mailbox provisioner *)

Lemma find_or_create_run (env : Env) (mailbox : string) (w : World) :
  find_or_create_mailbox env mailbox w
  = (fst (provision env mailbox (db w)),
     mkWorld (snd (provision env mailbox (db w))) (bucket w) (trace w)).
Proof.
  unfold provision, find_or_create_mailbox, Sql.insert_mailbox, bind, get_db, set_db, ret,
    throw.
  destruct w as [d b t]; simpl.
  destruct (Sql.select_mailbox_ids (JS.toLowerCase mailbox) d) as [|id ids].
  - destruct (JS.split "@" (JS.toLowerCase (JS.or mailbox ""))) as [|lp [|dm rest]];
      simpl; try reflexivity.
    destruct (JS.truthy lp && JS.truthy dm); simpl; [|reflexivity].
    match goal with
    | |- context [existsb ?f (mailboxes d)] => destruct (existsb f (mailboxes d))
    end; simpl; [reflexivity|].
    match goal with
    | |- context [hd_error ?l] => destruct (hd_error l) as [i|]
    end; [destruct (i =? 0)|]; reflexivity.
  - destruct (id =? 0); reflexivity.
Qed.

Lemma split_without_separator (sep : ascii) (s : string) :
  contains sep s = false -> JS.split sep s = [s].
Proof.
  induction s as [|x r IH]; simpl; [reflexivity|].
  intro H. apply orb_false_iff in H. destruct H as [Hx Hr].
  rewrite Hx, (IH Hr). reflexivity.
Qed.

Lemma lower_unit_at (x : ascii) :
  Ascii.eqb (JS.lower_unit x) "@" = Ascii.eqb x "@".
Proof. destruct x as [[] [] [] [] [] [] [] []]; reflexivity. Qed.

Lemma contains_at_toLowerCase (s : string) :
  contains "@" (JS.toLowerCase s) = contains "@" s.
Proof.
  induction s as [|x r IH]; simpl; [reflexivity|].
  unfold JS.toLowerCase in IH. now rewrite IH, lower_unit_at.
Qed.

(** An address without ['@'] that no mailbox row carries resolves to no
    identifier: nothing is inserted and the step raises. *)
Lemma provision_without_at (env : Env) (mailbox : string) (d : DB) :
  contains "@" mailbox = false ->
  Sql.select_mailbox_ids (JS.toLowerCase mailbox) d = [] ->
  provision env mailbox d = (Thrown MailboxResolutionError, d).
Proof.
  intros Hat Hsel.
  unfold provision, find_or_create_mailbox, bind, get_db; simpl.
  rewrite Hsel, or_empty_r.
  rewrite split_without_separator by now rewrite contains_at_toLowerCase.
  reflexivity.
Qed.

(** ** Messages whose address has no ['@'] *)

(** The whole run on a message whose address has no ['@'] and no mailbox
    row: the dispatch, the archive step, and the logged resolution error. *)
Lemma email_without_at (C : Collaborators) (message : EmailMessage) (env : Env) (w : World) :
  db_reachable env = true ->
  contains "@" (recipient_address C message) = false ->
  Sql.select_mailbox_ids (JS.toLowerCase (recipient_address C message)) (db w) = [] ->
  email C message env w
  = add_event
      (archive_world env (recipient_address C message) (rawBuffer_of C message)
         (add_event w (spec_forward C message (db w))))
      (Console (EmailHandlingError MailboxResolutionError)).
Proof.
  intros Hdb Hat Hsel. unfold email. rewrite Hdb. unfold exec, try_catch.
  rewrite email_body_run. unfold record_message, rawBuffer_of.
  destruct (extract_content C message) as [[textContent htmlContent] rawBuffer].
  rewrite recipient_or_header. fold (recipient_address C message).
  unfold bind. rewrite archive_run, find_or_create_run, archive_world_db.
  simpl db. rewrite (provision_without_at env _ _ Hat Hsel).
  cbn [fst snd]. unfold console, emit. cbn [fst snd db bucket trace].
  symmetry. unfold add_event at 1. now rewrite archive_world_db.
Qed.

(** C5. For every message the handler takes up whose mailbox address has
    no ['@'] and is the address of no mailbox row, the run raises the
    mailbox-resolution error (caught and logged by the handler, as the
    last event of the run) and leaves both tables as they were: no
    message row is inserted. *)
Theorem C5_no_at_no_message_row :
  forall (C : Collaborators) (message : EmailMessage) (env : Env) (w : World),
    db_reachable env = true ->
    contains "@" (recipient_address C message) = false ->
    Sql.select_mailbox_ids (JS.toLowerCase (recipient_address C message)) (db w) = [] ->
    outcome (find_or_create_mailbox env (recipient_address C message)) w
      = Thrown MailboxResolutionError
    /\ messages (db (email C message env w)) = messages (db w)
    /\ mailboxes (db (email C message env w)) = mailboxes (db w)
    /\ exists evs,
         trace (email C message env w)
         = (trace w ++ evs ++ [Console (EmailHandlingError MailboxResolutionError)])%list.
Proof.
  intros C message env w Hdb Hat Hsel.
  rewrite (email_without_at C message env w Hdb Hat Hsel).
  unfold outcome. rewrite find_or_create_run, (provision_without_at env _ _ Hat Hsel).
  simpl. rewrite archive_world_db. simpl.
  repeat split; try reflexivity.
  destruct (archive_world_trace env (recipient_address C message) (rawBuffer_of C message)
              (add_event w (spec_forward C message (db w)))) as [evs [Ht _]].
  exists (spec_forward C message (db w) :: evs).
  rewrite Ht. simpl. rewrite <- !app_assoc. reflexivity.
Qed.

Lemma C5_no_at_no_message_row_witness :
  messages (db (email Sample.plain (Sample.msg_to "nobody")
                      (Sample.env_with (Some Sample.up)) Sample.empty)) = []
  /\ exists evs,
       trace (email Sample.plain (Sample.msg_to "nobody")
                    (Sample.env_with (Some Sample.up)) Sample.empty)
       = ([] ++ evs ++ [Console (EmailHandlingError MailboxResolutionError)])%list.
Proof.
  destruct (C5_no_at_no_message_row Sample.plain (Sample.msg_to "nobody")
              (Sample.env_with (Some Sample.up)) Sample.empty
              eq_refl eq_refl eq_refl) as [_ [Hm [_ Ht]]].
  split; [exact Hm | exact Ht].
Defined.

(** C10. The forwarding dispatch comes before the mailbox resolution:
    for every message the handler takes up whose recipient address has no
    ['@'] (and no mailbox row), the events of the run are one forwarding
    dispatch, then events that are no dispatch, then the logged
    resolution error; and no message row is written. *)
Theorem C10_forward_precedes_resolution_error :
  forall (C : Collaborators) (message : EmailMessage) (env : Env) (w : World),
    db_reachable env = true ->
    contains "@" (recipient_address C message) = false ->
    Sql.select_mailbox_ids (JS.toLowerCase (recipient_address C message)) (db w) = [] ->
    exists fwd evs,
      trace (email C message env w)
      = (trace w ++ fwd :: evs ++ [Console (EmailHandlingError MailboxResolutionError)])%list
      /\ fwd = spec_forward C message (db w)
      /\ is_forward fwd = true
      /\ forwards evs = []
      /\ List.length
           (forwards (fwd :: evs ++ [Console (EmailHandlingError MailboxResolutionError)])%list)
         = 1%nat
      /\ messages (db (email C message env w)) = messages (db w).
Proof.
  intros C message env w Hdb Hat Hsel.
  rewrite (email_without_at C message env w Hdb Hat Hsel).
  destruct (archive_world_trace env (recipient_address C message) (rawBuffer_of C message)
              (add_event w (spec_forward C message (db w)))) as [evs [Ht Hf]].
  exists (spec_forward C message (db w)), evs.
  split; [simpl; rewrite Ht; simpl; now rewrite <- !app_assoc|].
  split; [reflexivity|]. split; [apply spec_forward_is_forward|].
  split; [exact Hf|]. split.
  - unfold forwards in *. simpl. rewrite spec_forward_is_forward, filter_app, Hf.
    reflexivity.
  - simpl. now rewrite archive_world_db.
Qed.

Lemma C10_forward_precedes_resolution_error_witness :
  exists evs,
    trace (email Sample.forwarding (Sample.msg_to "postmaster")
                 (Sample.env_with (Some Sample.outage)) Sample.empty)
    = ForwardByMailboxConfig "owner@example.org"
        :: (evs ++ [Console (EmailHandlingError MailboxResolutionError)])%list
    /\ forwards evs = []
    /\ messages (db (email Sample.forwarding (Sample.msg_to "postmaster")
                           (Sample.env_with (Some Sample.outage)) Sample.empty)) = [].
Proof.
  destruct (C10_forward_precedes_resolution_error Sample.forwarding
              (Sample.msg_to "postmaster") (Sample.env_with (Some Sample.outage))
              Sample.empty eq_refl eq_refl eq_refl)
    as [fwd [evs [Ht [Hfwd [_ [Hf [_ Hm]]]]]]].
  exists evs. subst fwd. split; [exact Ht|]. split; [exact Hf | exact Hm].
Defined.

(** ** Idempotence of the provisioner *)

Lemma next_id_positive (ids : list Z) : 0 < Sql.next_id ids.
Proof.
  unfold Sql.next_id.
  assert (0 <= fold_right Z.max 0 ids) by (induction ids; simpl; lia).
  lia.
Qed.

Lemma select_nil_not_in (a : string) (d : DB) :
  Sql.select_mailbox_ids a d = [] <-> ~ In a (List.map address (mailboxes d)).
Proof.
  unfold Sql.select_mailbox_ids. destruct d as [mbs msgs]; simpl.
  induction mbs as [|mb mbs IH]; simpl.
  - split; [intros _ [] | reflexivity].
  - destruct (String.eqb_spec (address mb) a) as [E|E]; simpl.
    + split; [discriminate | intro H; exfalso; apply H; now left].
    + rewrite IH. split; [intros H [F|F]; [now apply E | now apply H] | intros H F; apply H; now right].
Qed.

Lemma select_nil_existsb (a : string) (d : DB) :
  Sql.select_mailbox_ids a d = [] ->
  existsb (fun mb => address mb =? a)%string (mailboxes d) = false.
Proof.
  unfold Sql.select_mailbox_ids. destruct d as [mbs msgs]; simpl.
  induction mbs as [|mb mbs IH]; simpl; [reflexivity|].
  destruct (address mb =? a)%string; simpl; [discriminate | exact IH].
Qed.

Lemma select_after_insert (a : string) (mbs : list Mailbox) (msgs : list MessageRow)
    (row : Mailbox) :
  address row = a ->
  Sql.select_mailbox_ids a (mkDB (mbs ++ [row]) msgs)
  = (Sql.select_mailbox_ids a (mkDB mbs msgs) ++ [mb_id row])%list.
Proof.
  intro E. unfold Sql.select_mailbox_ids; simpl.
  rewrite filter_app, map_app. simpl. rewrite E, String.eqb_refl. reflexivity.
Qed.

Lemma select_unique (a : string) (d : DB) :
  NoDup (List.map address (mailboxes d)) ->
  (List.length (Sql.select_mailbox_ids a d) <= 1)%nat.
Proof.
  destruct d as [mbs msgs]. unfold Sql.select_mailbox_ids; simpl.
  induction mbs as [|mb mbs IH]; simpl; intro H; [lia|].
  inversion H as [|x l Hnot Hrest]; subst.
  destruct (String.eqb_spec (address mb) a) as [E|E]; simpl; [|now apply IH].
  subst a. apply (select_nil_not_in (address mb) (mkDB mbs msgs)) in Hnot.
  unfold Sql.select_mailbox_ids in Hnot; simpl in Hnot. rewrite Hnot. simpl; lia.
Qed.

(** The provisioner either leaves the datastore as it is, with an outcome
    that depends on the datastore and the address only, or it found no
    row, appended one for the address and returned the new identifier. *)
Lemma provision_cases (env : Env) (mailbox : string) (d : DB) :
  (forall env', provision env' mailbox d = (fst (provision env mailbox d), d))
  \/ (exists row,
        Sql.select_mailbox_ids (JS.toLowerCase mailbox) d = []
        /\ address row = JS.toLowerCase mailbox
        /\ mb_id row <> 0
        /\ provision env mailbox d
           = (Returned (mb_id row), mkDB (mailboxes d ++ [row]) (messages d))).
Proof.
  unfold provision, find_or_create_mailbox, Sql.insert_mailbox, bind, get_db, set_db, ret,
    throw; simpl.
  rewrite or_empty_r.
  destruct (Sql.select_mailbox_ids (JS.toLowerCase mailbox) d) as [|id ids] eqn:Hsel.
  - destruct (JS.split "@" (JS.toLowerCase mailbox)) as [|lp [|dm rest]]; simpl;
      try (left; intro; reflexivity).
    destruct (JS.truthy lp && JS.truthy dm); simpl; [|left; intro; reflexivity].
    rewrite (select_nil_existsb _ _ Hsel). simpl.
    right.
    set (row := mkMailbox (Sql.next_id (List.map mb_id (mailboxes d)))
                          (JS.toLowerCase mailbox) lp dm None (sql_now env) (sql_now env) 0 0).
    exists row.
    assert (Hid : mb_id row <> 0)
      by (simpl; pose proof (next_id_positive (List.map mb_id (mailboxes d))); lia).
    split; [reflexivity|]. split; [reflexivity|]. split; [exact Hid|].
    rewrite (select_after_insert (JS.toLowerCase mailbox) (mailboxes d) (messages d) row eq_refl).
    destruct d as [mbs msgs]; simpl in *. rewrite Hsel. simpl.
    apply Z.eqb_neq in Hid. simpl in Hid. rewrite Hid. reflexivity.
  - left. intro env'. destruct (id =? 0); reflexivity.
Qed.

(** A datastore that holds a row for the address gives its first
    identifier, and stays as it is. *)
Lemma provision_found (env : Env) (mailbox : string) (d : DB) (id : Z) (ids : list Z) :
  Sql.select_mailbox_ids (JS.toLowerCase mailbox) d = id :: ids ->
  id <> 0 ->
  provision env mailbox d = (Returned id, d).
Proof.
  intros Hsel Hid.
  unfold provision, find_or_create_mailbox, bind, get_db, ret, throw; simpl.
  rewrite Hsel. apply Z.eqb_neq in Hid. rewrite Hid. reflexivity.
Qed.

(** The provisioner, case by case: the first row of the address when
    there is one; a new row when the lowercase address has a local part
    and a domain; the resolution error otherwise. *)
Lemma provision_eq (env : Env) (mailbox : string) (d : DB) :
  provision env mailbox d
  = match Sql.select_mailbox_ids (JS.toLowerCase mailbox) d with
    | id :: _ => (if id =? 0 then Thrown MailboxResolutionError else Returned id, d)
    | [] =>
        match JS.split "@" (JS.toLowerCase mailbox) with
        | lp :: dm :: _ =>
            if JS.truthy lp && JS.truthy dm
            then (Returned (Sql.next_id (List.map mb_id (mailboxes d))),
                  mkDB (mailboxes d ++ [created_mailbox env mailbox lp dm d]) (messages d))
            else (Thrown MailboxResolutionError, d)
        | _ => (Thrown MailboxResolutionError, d)
        end
    end.
Proof.
  unfold provision, find_or_create_mailbox, Sql.insert_mailbox, bind, get_db, set_db, ret,
    throw; simpl.
  rewrite or_empty_r.
  destruct (Sql.select_mailbox_ids (JS.toLowerCase mailbox) d) as [|id ids] eqn:Hsel.
  - destruct (JS.split "@" (JS.toLowerCase mailbox)) as [|lp [|dm rest]]; simpl;
      try reflexivity.
    destruct (JS.truthy lp && JS.truthy dm); simpl; [|reflexivity].
    rewrite (select_nil_existsb _ _ Hsel). simpl.
    fold (created_mailbox env mailbox lp dm d).
    rewrite (select_after_insert (JS.toLowerCase mailbox) (mailboxes d) (messages d)
               (created_mailbox env mailbox lp dm d) eq_refl).
    destruct d as [mbs msgs]; simpl in *. rewrite Hsel. simpl.
    pose proof (next_id_positive (List.map mb_id mbs)) as Hpos.
    destruct (Sql.next_id (List.map mb_id mbs) =? 0) eqn:E; [|reflexivity].
    apply Z.eqb_eq in E. lia.
  - destruct (id =? 0); reflexivity.
Qed.

Lemma provision_returned (env : Env) (mailbox : string) (d : DB) (id : Z) :
  fst (provision env mailbox d) = Returned id ->
  In id (Sql.select_mailbox_ids (JS.toLowerCase mailbox) (snd (provision env mailbox d))).
Proof.
  rewrite provision_eq.
  destruct (Sql.select_mailbox_ids (JS.toLowerCase mailbox) d) as [|i ids] eqn:Hsel.
  - destruct (JS.split "@" (JS.toLowerCase mailbox)) as [|lp [|dm rest]];
      cbn [fst snd]; try discriminate.
    destruct (JS.truthy lp && JS.truthy dm); cbn [fst snd]; [|discriminate].
    intro H. injection H as H. subst id.
    rewrite (select_after_insert (JS.toLowerCase mailbox) (mailboxes d) (messages d)
               (created_mailbox env mailbox lp dm d) eq_refl).
    apply in_or_app. right. now left.
  - cbn [fst snd]. destruct (i =? 0); [discriminate|].
    intro H. injection H as H. subst i. rewrite Hsel. now left.
Qed.

(** An address whose lowercase form has a local part and a domain gets
    an identifier, when no row has the identifier 0. *)
Lemma provision_resolves (env : Env) (mailbox lp dm : string) (rest : list string)
    (d : DB) :
  JS.split "@" (JS.toLowerCase mailbox) = lp :: dm :: rest ->
  lp <> "" -> dm <> "" ->
  Forall (fun mb => mb_id mb <> 0) (mailboxes d) ->
  exists id, fst (provision env mailbox d) = Returned id.
Proof.
  intros Hsplit Hlp Hdm Hids. rewrite provision_eq.
  destruct (Sql.select_mailbox_ids (JS.toLowerCase mailbox) d) as [|id ids] eqn:Hsel.
  - rewrite Hsplit. apply truthy_true_iff in Hlp. apply truthy_true_iff in Hdm.
    rewrite Hlp, Hdm. cbn [andb fst]. eauto.
  - assert (Hid : id <> 0).
    { assert (Hin : In id (Sql.select_mailbox_ids (JS.toLowerCase mailbox) d))
        by (rewrite Hsel; now left).
      unfold Sql.select_mailbox_ids in Hin. apply in_map_iff in Hin.
      destruct Hin as [mb [E Hin]]. apply filter_In in Hin. destruct Hin as [Hin _].
      rewrite Forall_forall in Hids. subst id. now apply Hids. }
    apply Z.eqb_neq in Hid. rewrite Hid. cbn [fst]. eauto.
Qed.

(** An identifier the provisioner returns is not 0. *)
Lemma provision_returned_nonzero (env : Env) (mailbox : string) (d : DB) (id : Z) :
  fst (provision env mailbox d) = Returned id -> id <> 0.
Proof.
  rewrite provision_eq.
  destruct (Sql.select_mailbox_ids (JS.toLowerCase mailbox) d) as [|i ids].
  - destruct (JS.split "@" (JS.toLowerCase mailbox)) as [|lp [|dm rest]];
      cbn [fst]; try discriminate.
    destruct (JS.truthy lp && JS.truthy dm); cbn [fst]; [|discriminate].
    intro H. injection H as H. subst id.
    pose proof (next_id_positive (List.map mb_id (mailboxes d))). lia.
  - cbn [fst]. destruct (i =? 0) eqn:E; [discriminate|].
    intro H. injection H as H. subst i. now apply Z.eqb_neq.
Qed.

(** C4. Find-or-create is idempotent and resolves the address: run twice
    in a row on the same address, from a datastore whose mailbox
    addresses are distinct, it gives the same outcome both times, the
    second run changes nothing, the addresses stay distinct, and at most
    one mailbox row carries the lowercase address. An identifier it
    returns is not 0, the second run returns it too, and it is the
    identifier of the one row that carries the lowercase address. It
    does return an identifier when the lowercase address splits at ['@']
    into a local part and a domain, both non-empty, and no row has the
    identifier 0. *)
Theorem C4_find_or_create_idempotent :
  forall (env env' : Env) (mailbox : string) (w : World),
    NoDup (List.map address (mailboxes (db w))) ->
    outcome (find_or_create_mailbox env' mailbox)
            (exec (find_or_create_mailbox env mailbox) w)
      = outcome (find_or_create_mailbox env mailbox) w
    /\ exec (find_or_create_mailbox env' mailbox)
            (exec (find_or_create_mailbox env mailbox) w)
       = exec (find_or_create_mailbox env mailbox) w
    /\ NoDup (List.map address
                (mailboxes (db (exec (find_or_create_mailbox env mailbox) w))))
    /\ (List.length
          (Sql.select_mailbox_ids (JS.toLowerCase mailbox)
             (db (exec (find_or_create_mailbox env' mailbox)
                       (exec (find_or_create_mailbox env mailbox) w)))) <= 1)%nat
    /\ (forall id,
          outcome (find_or_create_mailbox env mailbox) w = Returned id ->
          id <> 0
          /\ outcome (find_or_create_mailbox env' mailbox)
                     (exec (find_or_create_mailbox env mailbox) w) = Returned id
          /\ Sql.select_mailbox_ids (JS.toLowerCase mailbox)
               (db (exec (find_or_create_mailbox env mailbox) w)) = [id]
          /\ Sql.select_mailbox_ids (JS.toLowerCase mailbox)
               (db (exec (find_or_create_mailbox env' mailbox)
                         (exec (find_or_create_mailbox env mailbox) w))) = [id])
    /\ (forall lp dm rest,
          JS.split "@" (JS.toLowerCase mailbox) = lp :: dm :: rest ->
          lp <> "" -> dm <> "" ->
          Forall (fun mb => mb_id mb <> 0) (mailboxes (db w)) ->
          exists id, outcome (find_or_create_mailbox env mailbox) w = Returned id).
Proof.
  intros env env' mailbox w Hnd.
  assert (Hidem :
    outcome (find_or_create_mailbox env' mailbox)
            (exec (find_or_create_mailbox env mailbox) w)
      = outcome (find_or_create_mailbox env mailbox) w
    /\ exec (find_or_create_mailbox env' mailbox)
            (exec (find_or_create_mailbox env mailbox) w)
       = exec (find_or_create_mailbox env mailbox) w
    /\ NoDup (List.map address
                (mailboxes (db (exec (find_or_create_mailbox env mailbox) w))))
    /\ (List.length
          (Sql.select_mailbox_ids (JS.toLowerCase mailbox)
             (db (exec (find_or_create_mailbox env' mailbox)
                       (exec (find_or_create_mailbox env mailbox) w)))) <= 1)%nat).
  { unfold outcome, exec. rewrite !find_or_create_run. cbn [fst snd db bucket trace].
    destruct (provision_cases env mailbox (db w)) as [Hsame | [row [Hsel [Ha [Hid Hrun]]]]].
    - rewrite (Hsame env). cbn [fst snd]. rewrite (Hsame env'). cbn [fst snd].
      repeat split; try assumption. now apply select_unique.
    - rewrite Hrun. cbn [fst snd].
      assert (Hsel1 : Sql.select_mailbox_ids (JS.toLowerCase mailbox)
                        (mkDB (mailboxes (db w) ++ [row]) (messages (db w)))
                      = [mb_id row]).
      { rewrite (select_after_insert _ _ _ _ Ha).
        destruct (db w) as [mbs msgs]; simpl in *. now rewrite Hsel. }
      rewrite (provision_found env' mailbox _ _ _ Hsel1 Hid). cbn [fst snd].
      assert (Hnd1 : NoDup (List.map address (mailboxes (db w) ++ [row]))).
      { rewrite map_app. simpl. rewrite Ha.
        apply NoDup_app; [exact Hnd | repeat constructor; intros [] |].
        intros a Hin [E|[]]. subst a. now apply select_nil_not_in in Hsel. }
      repeat split; try assumption.
      rewrite Hsel1. simpl; lia. }
  destruct Hidem as [Hout [Hexec [Hnd1 Hlen]]].
  split; [exact Hout|]. split; [exact Hexec|]. split; [exact Hnd1|]. split; [exact Hlen|].
  split.
  - intros id Hid.
    assert (Hone : Sql.select_mailbox_ids (JS.toLowerCase mailbox)
                     (db (exec (find_or_create_mailbox env mailbox) w)) = [id]).
    { assert (Hin : In id (Sql.select_mailbox_ids (JS.toLowerCase mailbox)
                             (db (exec (find_or_create_mailbox env mailbox) w)))).
      { revert Hid. unfold outcome, exec. rewrite find_or_create_run.
        cbn [fst snd db]. apply provision_returned. }
      rewrite Hexec in Hlen. revert Hin Hlen.
      destruct (Sql.select_mailbox_ids (JS.toLowerCase mailbox)
                  (db (exec (find_or_create_mailbox env mailbox) w))) as [|i [|j l]];
        simpl; [intros [] | intros [E|[]] _; now subst i | intros _ F; lia]. }
    split.
    + revert Hid. unfold outcome. rewrite find_or_create_run. cbn [fst].
      apply provision_returned_nonzero.
    + split; [now rewrite Hout|]. split; [exact Hone | now rewrite Hexec].
  - intros lp dm rest Hsplit Hlp Hdm Hids.
    unfold outcome. rewrite find_or_create_run. cbn [fst].
    now apply (provision_resolves env mailbox lp dm rest).
Qed.

Lemma C4_find_or_create_idempotent_witness :
  NoDup (List.map address (mailboxes (db SweepSample.world)))
  /\ outcome (find_or_create_mailbox (Sample.env_with None) "Brand-New@Temp.Example.com")
             (exec (find_or_create_mailbox SweepSample.env "Brand-New@Temp.Example.com")
                   SweepSample.world)
     = Returned 5
  /\ Sql.select_mailbox_ids "brand-new@temp.example.com"
       (db (exec (find_or_create_mailbox (Sample.env_with None) "Brand-New@Temp.Example.com")
              (exec (find_or_create_mailbox SweepSample.env "Brand-New@Temp.Example.com")
                    SweepSample.world)))
     = [5].
Proof.
  assert (Hnd : NoDup (List.map address (mailboxes (db SweepSample.world)))).
  { repeat constructor; simpl; intuition discriminate. }
  destruct (C4_find_or_create_idempotent SweepSample.env (Sample.env_with None)
              "Brand-New@Temp.Example.com" SweepSample.world Hnd)
    as [_ [_ [_ [_ [Hid _]]]]].
  destruct (Hid 5 eq_refl) as [_ [Hout [_ Hsel]]].
  split; [exact Hnd|]. split; [exact Hout | exact Hsel].
Defined.

(** A well-formed address resolves: when the lowercase address splits at
    ['@'] into a local part and a domain, both non-empty, and no mailbox
    row has the identifier 0, find-or-create returns an identifier, and a
    row of the datastore it leaves has that identifier and the address. *)
Theorem find_or_create_resolves :
  forall (env : Env) (mailbox lp dm : string) (rest : list string) (w : World),
    JS.split "@" (JS.toLowerCase mailbox) = lp :: dm :: rest ->
    lp <> "" -> dm <> "" ->
    Forall (fun mb => mb_id mb <> 0) (mailboxes (db w)) ->
    exists id,
      outcome (find_or_create_mailbox env mailbox) w = Returned id
      /\ In id (Sql.select_mailbox_ids (JS.toLowerCase mailbox)
                  (db (exec (find_or_create_mailbox env mailbox) w))).
Proof.
  intros env mailbox lp dm rest w Hsplit Hlp Hdm Hids.
  unfold outcome, exec. rewrite find_or_create_run. cbn [fst snd db].
  destruct (Sql.select_mailbox_ids (JS.toLowerCase mailbox) (db w)) as [|id ids] eqn:Hsel.
  - destruct (provision_cases env mailbox (db w)) as [Hsame | [row [_ [Ha [Hid Hrun]]]]].
    + exfalso. specialize (Hsame env). revert Hsame.
      unfold provision, find_or_create_mailbox, Sql.insert_mailbox, bind, get_db, set_db,
        ret, throw; simpl.
      rewrite or_empty_r, Hsel, Hsplit. simpl.
      apply truthy_true_iff in Hlp. apply truthy_true_iff in Hdm. rewrite Hlp, Hdm. simpl.
      rewrite (select_nil_existsb _ _ Hsel). simpl.
      intro F. apply (f_equal (fun r => List.length (mailboxes (snd r)))) in F.
      revert F. simpl.
      match goal with
      | |- context [hd_error ?l] => destruct (hd_error l) as [i|]
      end; [destruct (i =? 0)|]; simpl; rewrite List.length_app; simpl; lia.
    + rewrite Hrun. cbn [fst snd]. exists (mb_id row). split; [reflexivity|].
      rewrite (select_after_insert _ _ _ _ Ha). apply in_or_app. right. now left.
  - assert (Hid : id <> 0).
    { assert (Hin : In id (Sql.select_mailbox_ids (JS.toLowerCase mailbox) (db w)))
        by (rewrite Hsel; now left).
      unfold Sql.select_mailbox_ids in Hin. apply in_map_iff in Hin.
      destruct Hin as [mb [E Hin]]. apply filter_In in Hin. destruct Hin as [Hin _].
      rewrite Forall_forall in Hids. subst id. now apply Hids. }
    rewrite (provision_found env mailbox _ _ _ Hsel Hid). cbn [fst snd].
    exists id. split; [reflexivity|]. rewrite Hsel. now left.
Qed.

Lemma find_or_create_resolves_witness :
  exists id,
    outcome (find_or_create_mailbox (Sample.env_with None) "New-User@Temp.Example.com")
            Sample.empty = Returned id
    /\ In id (Sql.select_mailbox_ids "new-user@temp.example.com"
                (db (exec (find_or_create_mailbox (Sample.env_with None)
                             "New-User@Temp.Example.com") Sample.empty))).
Proof.
  apply (find_or_create_resolves (Sample.env_with None) "New-User@Temp.Example.com"
           "new-user" "temp.example.com" [] Sample.empty);
    [reflexivity | discriminate | discriminate | constructor].
Defined.

(** ** The expiry sweeper *)

Lemma delete_blobs_db (r2 : R2Binding) (keys : list string) : keeps_db (delete_blobs r2 keys).
Proof.
  induction keys as [|key rest IH]; intro w; [reflexivity|].
  simpl. unfold bind, try_catch, r2_delete, console, emit, throw.
  destruct (delete_raises r2 key); simpl; rewrite IH; reflexivity.
Qed.

Lemma delete_blobs_returns (r2 : R2Binding) (keys : list string) (w : World) :
  fst (delete_blobs r2 keys w) = Returned tt.
Proof.
  revert w. induction keys as [|key rest IH]; intro w; [reflexivity|].
  simpl. unfold bind, try_catch, r2_delete, console, emit, throw.
  destruct (delete_raises r2 key); simpl; apply IH.
Qed.

(** The datastore a sweep leaves: the two deletes, whatever the blob
    store does. *)
Lemma scheduled_db (env : Env) (w : World) :
  db_reachable env = true ->
  db (scheduled env w)
  = Sql.delete_expired_mailboxes EXPIRE_MINUTES (sql_now env)
      (Sql.delete_expired_messages EXPIRE_MINUTES (sql_now env) (db w)).
Proof.
  intro Hdb. unfold scheduled. rewrite Hdb.
  unfold exec, try_catch, scheduled_body.
  unfold bind at 1. unfold get_db at 1. unfold bind at 1.
  set (step2 := match MAIL_EML env with
                | Some r2 => _
                | None => _
                end).
  assert (H2 : exists w1, step2 w = (Returned tt, w1) /\ db w1 = db w).
  { unfold step2. destruct (MAIL_EML env) as [r2|]; [|exists w; split; reflexivity].
    destruct (Sql.select_expired_messages EXPIRE_MINUTES (sql_now env) (db w)) as [|m ms];
      [exists w; split; reflexivity|].
    match goal with
    | |- context [delete_blobs r2 ?ks] =>
        exists (snd (delete_blobs r2 ks w)); split;
        [ pose proof (delete_blobs_returns r2 ks w) as R;
          destruct (delete_blobs r2 ks w) as [o w1]; simpl in *; now rewrite R
        | apply delete_blobs_db ]
    end. }
  destruct H2 as [w1 [E1 Ed]]. rewrite E1.
  unfold bind, get_db, set_db, console, emit. simpl. now rewrite Ed.
Qed.

(** C2. For every mailbox row that is pinned or favorited (a flag that
    is not 0), whatever its creation time, the row is still in the table
    after a run of the sweeper. *)
Theorem C2_sweep_keeps_pinned_and_favorite :
  forall (env : Env) (w : World) (mb : Mailbox),
    In mb (mailboxes (db w)) ->
    is_pinned mb <> 0 \/ is_favorite mb <> 0 ->
    In mb (mailboxes (db (scheduled env w))).
Proof.
  intros env w mb Hin Hflag.
  destruct (db_reachable env) eqn:Hdb.
  - rewrite (scheduled_db env w Hdb). simpl.
    apply filter_In. split; [exact Hin|].
    apply negb_true_iff, andb_false_iff.
    destruct Hflag as [Hp|Hf].
    + left. apply andb_false_iff. right. now apply Z.eqb_neq.
    + right. now apply Z.eqb_neq.
  - unfold scheduled. rewrite Hdb. exact Hin.
Qed.

Lemma C2_sweep_keeps_pinned_and_favorite_witness :
  In SweepSample.pinned (mailboxes (db SweepSample.world))
  /\ (is_pinned SweepSample.pinned <> 0 \/ is_favorite SweepSample.pinned <> 0)
  /\ In SweepSample.pinned (mailboxes (db (scheduled SweepSample.env SweepSample.world))).
Proof.
  assert (Hin : In SweepSample.pinned (mailboxes (db SweepSample.world)))
    by (right; left; reflexivity).
  assert (Hflag : is_pinned SweepSample.pinned <> 0 \/ is_favorite SweepSample.pinned <> 0)
    by (left; discriminate).
  split; [exact Hin|]. split; [exact Hflag|].
  exact (C2_sweep_keeps_pinned_and_favorite SweepSample.env SweepSample.world
           SweepSample.pinned Hin Hflag).
Defined.

(** The sweep deletes every message of a mailbox older than the window:
    the delete of lines 250-256 asks for the age of the mailbox only, not
    for its flags. *)
Theorem sweep_deletes_messages_of_old_mailboxes :
  forall (env : Env) (w : World) (m : MessageRow) (mb : Mailbox),
    db_reachable env = true ->
    In mb (mailboxes (db w)) ->
    mailbox_id m = mb_id mb ->
    created_at mb <= sql_now env - EXPIRE_MINUTES * 60 ->
    ~ In m (messages (db (scheduled env w))).
Proof.
  intros env w m mb Hdb Hmb Hown Hold Hin.
  rewrite (scheduled_db env w Hdb) in Hin. simpl in Hin.
  apply filter_In in Hin. destruct Hin as [_ Hkeep].
  apply negb_true_iff in Hkeep.
  assert (Hex : existsb (Z.eqb (mailbox_id m))
                  (List.map mb_id
                     (filter (Sql.older_than EXPIRE_MINUTES (sql_now env)) (mailboxes (db w))))
                = true).
  { apply existsb_exists. exists (mb_id mb). split; [|now apply Z.eqb_eq].
    apply in_map. apply filter_In. split; [exact Hmb|].
    unfold Sql.older_than. now apply Z.leb_le. }
  congruence.
Qed.

Lemma sweep_deletes_messages_of_old_mailboxes_witness :
  is_pinned SweepSample.pinned = 1
  /\ ~ In SweepSample.note (messages (db (scheduled SweepSample.env SweepSample.world))).
Proof.
  split; [reflexivity|].
  apply (sweep_deletes_messages_of_old_mailboxes SweepSample.env SweepSample.world
           SweepSample.note SweepSample.pinned eq_refl).
  - right. left. reflexivity.
  - reflexivity.
  - vm_compute. discriminate.
Defined.

(** A mailbox older than the window that is neither pinned nor favorited
    is deleted by the sweep. *)
Theorem sweep_purges_expired_mailboxes :
  forall (env : Env) (w : World) (mb : Mailbox),
    db_reachable env = true ->
    created_at mb <= sql_now env - EXPIRE_MINUTES * 60 ->
    is_pinned mb = 0 ->
    is_favorite mb = 0 ->
    ~ In mb (mailboxes (db (scheduled env w))).
Proof.
  intros env w mb Hdb Hold Hp Hf Hin.
  rewrite (scheduled_db env w Hdb) in Hin. simpl in Hin.
  apply filter_In in Hin. destruct Hin as [_ Hkeep].
  unfold Sql.older_than in Hkeep. rewrite Hp, Hf in Hkeep.
  apply Z.leb_le in Hold. rewrite Hold in Hkeep. discriminate.
Qed.

Lemma sweep_purges_expired_mailboxes_witness :
  In SweepSample.stale (mailboxes (db SweepSample.world))
  /\ ~ In SweepSample.stale (mailboxes (db (scheduled SweepSample.env SweepSample.world))).
Proof.
  split; [right; right; left; reflexivity|].
  apply (sweep_purges_expired_mailboxes SweepSample.env SweepSample.world SweepSample.stale
           eq_refl); [vm_compute; discriminate | reflexivity | reflexivity].
Defined.

(** A message whose mailbox is younger than the window stays, and so
    does that mailbox. *)
Theorem sweep_keeps_recent :
  forall (env : Env) (w : World) (m : MessageRow),
    In m (messages (db w)) ->
    (forall mb, In mb (mailboxes (db w)) ->
                mb_id mb = mailbox_id m ->
                sql_now env - EXPIRE_MINUTES * 60 < created_at mb) ->
    In m (messages (db (scheduled env w)))
    /\ (forall mb, In mb (mailboxes (db w)) ->
                   mb_id mb = mailbox_id m ->
                   In mb (mailboxes (db (scheduled env w)))).
Proof.
  intros env w m Hin Hyoung. destruct (db_reachable env) eqn:Hdb.
  - rewrite (scheduled_db env w Hdb). cbn [Sql.delete_expired_mailboxes
      Sql.delete_expired_messages mailboxes messages]. split.
    + apply filter_In. split; [exact Hin|].
      apply negb_true_iff. apply not_true_is_false. intro Hex.
      apply existsb_exists in Hex. destruct Hex as [id [Hid Heq]].
      apply in_map_iff in Hid. destruct Hid as [mb [Hmb Hold]].
      apply filter_In in Hold. destruct Hold as [Hmbin Hold].
      apply Z.eqb_eq in Heq. subst id.
      specialize (Hyoung mb Hmbin (eq_sym Heq)).
      unfold Sql.older_than in Hold. apply Z.leb_le in Hold. lia.
    + intros mb Hmbin Hid. apply filter_In. split; [exact Hmbin|].
      specialize (Hyoung mb Hmbin Hid).
      unfold Sql.older_than. apply negb_true_iff.
      assert (E : (created_at mb <=? sql_now env - EXPIRE_MINUTES * 60) = false)
        by (apply Z.leb_gt; exact Hyoung).
      now rewrite E.
  - unfold scheduled. rewrite Hdb. simpl. split; auto.
Qed.

Lemma sweep_keeps_recent_witness :
  In SweepSample.hello (messages (db (scheduled SweepSample.env SweepSample.world)))
  /\ In SweepSample.fresh (mailboxes (db (scheduled SweepSample.env SweepSample.world))).
Proof.
  assert (Hin : In SweepSample.hello (messages (db SweepSample.world)))
    by (right; right; left; reflexivity).
  assert (Hyoung : forall mb, In mb (mailboxes (db SweepSample.world)) ->
             mb_id mb = mailbox_id SweepSample.hello ->
             sql_now SweepSample.env - EXPIRE_MINUTES * 60 < created_at mb).
  { intros mb [H|[H|[H|[H|[]]]]] Hid; subst mb; try discriminate Hid.
    vm_compute. reflexivity. }
  destruct (sweep_keeps_recent SweepSample.env SweepSample.world SweepSample.hello
              Hin Hyoung) as [Hm Hmb].
  split; [exact Hm|].
  apply Hmb; [right; right; right; left; reflexivity | reflexivity].
Defined.

(** C3. The sweep on a favorited mailbox created 31 minutes ago: the
    mailbox row stays, and its message row and the blob of that message
    are deleted; the message does not survive the sweep. *)
Theorem C3_sweep_deletes_messages_of_favorite :
  In SweepSample.favorite (mailboxes (db (scheduled SweepSample.env SweepSample.world)))
  /\ is_favorite SweepSample.favorite = 1
  /\ In SweepSample.letter (messages (db SweepSample.world))
  /\ mailbox_id SweepSample.letter = mb_id SweepSample.favorite
  /\ ~ In SweepSample.letter (messages (db (scheduled SweepSample.env SweepSample.world)))
  /\ messages (db (scheduled SweepSample.env SweepSample.world)) = [SweepSample.hello]
  /\ bucket (scheduled SweepSample.env SweepSample.world) = [].
Proof.
  split; [left; reflexivity|]. split; [reflexivity|].
  split; [left; reflexivity|]. split; [reflexivity|].
  split; [|split; reflexivity].
  intro H. vm_compute in H. destruct H as [H|[]]. discriminate H.
Qed.

(** ** A blob write that fails *)

Lemma rawBuffer_is_raw (C : Collaborators) (message : EmailMessage) :
  rawBuffer_of C message = raw message.
Proof.
  unfold rawBuffer_of, extract_content.
  destruct (raw message) as [bytes|]; [|reflexivity].
  destruct (parseEmailBody C (decodeText C bytes)) as [[text html]|]; [|reflexivity].
  destruct (negb (JS.truthy (JS.or text "")) && negb (JS.truthy (JS.or html "")));
    reflexivity.
Qed.

Lemma objectKey_not_empty (env : Env) (mailbox : string) :
  objectKey_of env mailbox <> "".
Proof.
  unfold objectKey_of.
  destruct (JS.String_of_Z (getUTCFullYear (new_Date env))); discriminate.
Qed.

Lemma provision_messages (env : Env) (mailbox : string) (d : DB) :
  messages (snd (provision env mailbox d)) = messages d.
Proof.
  destruct (provision_cases env mailbox d) as [Hsame | [row [_ [_ [_ Hrun]]]]].
  - now rewrite (Hsame env).
  - now rewrite Hrun.
Qed.

(** The run of a message whose mailbox resolves: the dispatch, the
    archive step, the provisioner, and then the insert of one row, whose
    object key is the key of line 151. *)
Lemma email_recorded (C : Collaborators) (message : EmailMessage) (env : Env) (w : World)
    (id : Z) :
  db_reachable env = true ->
  outcome (find_or_create_mailbox env (recipient_address C message)) w = Returned id ->
  exists row,
    messages (db (email C message env w)) = (messages (db w) ++ [row])%list
    /\ mailbox_id row = id
    /\ r2_object_key row = objectKey_of env (recipient_address C message)
    /\ preview row
       = or_null (preview_of (fst (fst (extract_content C message)))
                             (snd (fst (extract_content C message))))
    /\ bucket (email C message env w)
       = bucket (archive_world env (recipient_address C message) (rawBuffer_of C message) w)
    /\ trace (email C message env w)
       = trace (archive_world env (recipient_address C message) (rawBuffer_of C message)
                  (add_event w (spec_forward C message (db w)))).
Proof.
  intros Hdb Hid. unfold email. rewrite Hdb. unfold exec, try_catch.
  rewrite email_body_run. unfold record_message, rawBuffer_of.
  destruct (extract_content C message) as [[textContent htmlContent] rawBuffer].
  rewrite recipient_or_header. fold (recipient_address C message).
  unfold outcome in Hid. rewrite find_or_create_run in Hid. cbn [fst] in Hid.
  unfold bind. rewrite archive_run, find_or_create_run, archive_world_db.
  change (db (add_event w (spec_forward C message (db w)))) with (db w).
  pose proof (provision_messages env (recipient_address C message) (db w)) as Hpm.
  destruct (provision env (recipient_address C message) (db w)) as [o d1].
  cbn [fst snd] in Hid, Hpm. subst o. cbn [fst snd].
  unfold Sql.insert_message, bind, get_db, set_db. cbn [fst snd db bucket trace messages].
  rewrite Hpm.
  eexists. split; [reflexivity|]. cbn [mailbox_id r2_object_key preview fst snd].
  split; [reflexivity|]. split; [apply or_empty_r|]. split; [reflexivity|].
  split.
  - unfold archive_world, add_event.
    destruct (MAIL_EML env) as [r2|]; [destruct rawBuffer as [bytes|]|]; try reflexivity.
    destruct (put_raises r2 (objectKey_of env (recipient_address C message))); reflexivity.
  - reflexivity.
Qed.

(** C1. When the blob write raises, and the mailbox of the message
    resolves, the handler still inserts exactly one message row and
    stores nothing in the bucket; the object key of that row is the key
    built at line 151, which is never the empty string. *)
Theorem C1_failed_put_keeps_object_key :
  forall (C : Collaborators) (message : EmailMessage) (env : Env) (w : World)
         (r2 : R2Binding) (bytes : string) (id : Z),
    db_reachable env = true ->
    MAIL_EML env = Some r2 ->
    raw message = Some bytes ->
    put_raises r2 (objectKey_of env (recipient_address C message)) = true ->
    outcome (find_or_create_mailbox env (recipient_address C message)) w = Returned id ->
    exists row,
      messages (db (email C message env w)) = (messages (db w) ++ [row])%list
      /\ r2_object_key row = objectKey_of env (recipient_address C message)
      /\ r2_object_key row <> ""
      /\ bucket (email C message env w) = bucket w
      /\ In (Console R2PutFailed) (trace (email C message env w)).
Proof.
  intros C message env w r2 bytes id Hdb Hr2 Hraw Hput Hid.
  destruct (email_recorded C message env w id Hdb Hid)
    as [row [Hm [_ [Hkey [_ [Hb Ht]]]]]].
  exists row. split; [exact Hm|]. split; [exact Hkey|].
  split; [rewrite Hkey; apply objectKey_not_empty|].
  rewrite Hb, Ht, rawBuffer_is_raw, Hraw. unfold archive_world.
  rewrite Hr2, Hput. split; [reflexivity|].
  simpl. apply in_or_app. right. now left.
Qed.

Lemma C1_failed_put_keeps_object_key_witness :
  exists row,
    messages (db (email Sample.plain (Sample.msg_to "new.user@temp.example.com")
                        (Sample.env_with (Some Sample.outage)) Sample.empty)) = [row]
    /\ r2_object_key row = "2024/03/05/new.user@temp.example.com/070809-3f2a.eml"
    /\ r2_object_key row <> "".
Proof.
  destruct (C1_failed_put_keeps_object_key Sample.plain
              (Sample.msg_to "new.user@temp.example.com")
              (Sample.env_with (Some Sample.outage)) Sample.empty
              Sample.outage "Subject: hi" 1 eq_refl eq_refl eq_refl eq_refl eq_refl)
    as [row [Hm [Hkey [Hne _]]]].
  exists row. split; [exact Hm|]. split; [exact Hkey | exact Hne].
Defined.

(** ** The object key *)

Lemma in_range_by_cases (P : Z -> bool) (lo len : Z) :
  forallb (fun k => P (lo + Z.of_nat k)) (seq 0 (Z.to_nat len)) = true ->
  forall n, lo <= n < lo + len -> P n = true.
Proof.
  intros Hall n Hn. rewrite forallb_forall in Hall.
  replace n with (lo + Z.of_nat (Z.to_nat (n - lo))) by lia.
  apply Hall. apply in_seq. lia.
Qed.

Lemma pad2_two_digits (n : Z) : 0 <= n <= 99 -> pad2 n = two_digits n.
Proof.
  intro Hn. apply String.eqb_eq.
  apply (in_range_by_cases (fun k => (pad2 k =? two_digits k)%string) 0 100);
    [vm_compute; reflexivity | lia].
Qed.

Lemma digit_cases (k : Z) :
  0 <= k <= 9 ->
  k = 0 \/ k = 1 \/ k = 2 \/ k = 3 \/ k = 4 \/ k = 5 \/ k = 6 \/ k = 7 \/ k = 8 \/ k = 9.
Proof. lia. Qed.

(** Runs a tactic on each of the ten digits. *)
Ltac by_digit k H tac :=
  let D := fresh "D" in
  pose proof (digit_cases k H) as D;
  repeat (destruct D as [D|D]; [subst k; tac|]); subst k; tac.

Lemma of_uint_acc_digit (k : Z) (l : Decimal.uint) (acc : positive) :
  0 <= k <= 9 ->
  Pos.of_uint_acc (decimal_digit k l) acc
  = Pos.of_uint_acc l (Z.to_pos (k + 10 * Z.pos acc)).
Proof.
  intro H.
  by_digit k H ltac:(reflexivity).
Qed.

Lemma of_uint_leading_digit (k : Z) (l : Decimal.uint) :
  1 <= k <= 9 ->
  Pos.of_uint (decimal_digit k l) = Npos (Pos.of_uint_acc l (Z.to_pos k))
  /\ Decimal.unorm (decimal_digit k l) = decimal_digit k l.
Proof.
  intro H. assert (H' : 0 <= k <= 9) by lia.
  by_digit k H' ltac:(first [lia | split; reflexivity]).
Qed.

Lemma string_of_digit (k : Z) (l : Decimal.uint) :
  0 <= k <= 9 ->
  NilEmpty.string_of_uint (decimal_digit k l) = String (digit k) (NilEmpty.string_of_uint l)
  /\ NilZero.string_of_uint (decimal_digit k l) = NilEmpty.string_of_uint (decimal_digit k l).
Proof.
  intro H. by_digit k H ltac:(split; reflexivity).
Qed.

(** [String(y)] of a year of four digits is its four digits. *)
Lemma year_four_digits (y : Z) : 1000 <= y <= 9999 -> JS.String_of_Z y = four_digits y.
Proof.
  intro Hy. unfold JS.String_of_Z, four_digits.
  set (a := y / 1000). set (b := y / 100 mod 10). set (c := y / 10 mod 10).
  set (e := y mod 10).
  assert (Ha : 1 <= a <= 9) by (unfold a; Z.div_mod_to_equations; lia).
  assert (Hb : 0 <= b <= 9) by (unfold b; Z.div_mod_to_equations; lia).
  assert (Hc : 0 <= c <= 9) by (unfold c; Z.div_mod_to_equations; lia).
  assert (He : 0 <= e <= 9) by (unfold e; Z.div_mod_to_equations; lia).
  assert (Hsum : y = e + 10 * (c + 10 * (b + 10 * a)))
    by (unfold a, b, c, e; Z.div_mod_to_equations; lia).
  set (d := decimal_digit a (decimal_digit b (decimal_digit c (decimal_digit e Decimal.Nil)))).
  assert (Hd : Z.to_int y = Decimal.Pos d).
  { assert (Hval : Z.of_int (Decimal.Pos d) = y).
    { unfold d. cbn [Z.of_int]. unfold Z.of_uint.
      rewrite (proj1 (of_uint_leading_digit a _ Ha)).
      rewrite !of_uint_acc_digit by assumption. cbn [Pos.of_uint_acc Z.of_N].
      rewrite !Z2Pos.id by lia. lia. }
    rewrite <- Hval at 1. rewrite DecimalZ.to_of. unfold Decimal.norm, d.
    now rewrite (proj2 (of_uint_leading_digit a _ Ha)). }
  rewrite Hd. unfold NilZero.string_of_int, d.
  rewrite (proj2 (string_of_digit a _ (ltac:(lia)))).
  rewrite !(fun k l H => proj1 (string_of_digit k l H)) by lia.
  reflexivity.
Qed.

Lemma safe_class_is_spec (c : ascii) :
  JS.negclass_matches SAFE_CLASS c = negb (spec_safe_unit c).
Proof. destruct c as [[] [] [] [] [] [] [] []]; reflexivity. Qed.

Lemma safeMailbox_is_spec (mailbox : string) :
  safeMailbox_of mailbox = spec_sanitize mailbox.
Proof.
  unfold safeMailbox_of, spec_sanitize, JS.replace_negclass, JS.toLowerCase.
  destruct mailbox as [|c r]; [reflexivity|].
  change (JS.or (String c r) "unknown") with (String c r).
  generalize (String c r) as s. clear c r.
  induction s as [|c r IH]; simpl; [reflexivity|].
  rewrite IH, safe_class_is_spec.
  destruct (spec_safe_unit (JS.lower_unit c)); reflexivity.
Qed.

Lemma spec_sanitize_safe (mailbox : string) :
  all_units spec_safe_unit (spec_sanitize mailbox) = true.
Proof.
  unfold spec_sanitize. destruct mailbox as [|c r]; [reflexivity|].
  generalize (String c r) as s. clear c r.
  induction s as [|c r IH]; simpl; [reflexivity|].
  rewrite IH, andb_true_r.
  destruct (spec_safe_unit (JS.lower_unit c)) eqn:E; [exact E | reflexivity].
Qed.

(** C6. For every message, with the fields of the date in the ranges of
    the UTC getters, the archive step returns the key
    [YYYY/MM/DD/<sanitized-mailbox>/<HHMMSS>-<unique-id>.eml]: the year
    on four digits, month (counted from 1), day, hours, minutes and
    seconds on two zero-padded digits each, and the mailbox in lower
    case with every unit outside [[a-z0-9@._-]] replaced by ['_'], or
    [unknown] when the address is empty. *)
Theorem C6_object_key_form :
  forall (env : Env) (mailbox : string) (rawBuffer : option string) (w : World),
    utc_fields_in_range (new_Date env) ->
    outcome (archive env mailbox rawBuffer) w = Returned (objectKey_of env mailbox)
    /\ objectKey_of env mailbox
       = four_digits (getUTCFullYear (new_Date env)) ++ "/"
         ++ two_digits (getUTCMonth (new_Date env) + 1) ++ "/"
         ++ two_digits (getUTCDate (new_Date env)) ++ "/"
         ++ spec_sanitize mailbox ++ "/"
         ++ two_digits (getUTCHours (new_Date env))
         ++ two_digits (getUTCMinutes (new_Date env))
         ++ two_digits (getUTCSeconds (new_Date env))
         ++ "-" ++ keyId_of env ++ ".eml"
    /\ all_units spec_safe_unit (spec_sanitize mailbox) = true
    /\ spec_sanitize "" = "unknown".
Proof.
  intros env mailbox rawBuffer w [Hy [Hmo [Hd [Hh [Hmi Hs]]]]].
  split; [unfold outcome; now rewrite archive_run|].
  split; [|split; [apply spec_sanitize_safe | reflexivity]].
  unfold objectKey_of.
  rewrite (year_four_digits _ Hy), safeMailbox_is_spec.
  rewrite !pad2_two_digits by lia. reflexivity.
Qed.

Lemma C6_object_key_form_witness :
  utc_fields_in_range (new_Date (Sample.env_with None))
  /\ objectKey_of (Sample.env_with None) "New User@Temp.example.com"
     = "2024/03/05/new_user@temp.example.com/070809-3f2a.eml".
Proof.
  assert (H : utc_fields_in_range (new_Date (Sample.env_with None)))
    by (unfold utc_fields_in_range; simpl; lia).
  split; [exact H|].
  destruct (C6_object_key_form (Sample.env_with None) "New User@Temp.example.com"
              None Sample.empty H) as [_ [Hkey _]].
  rewrite Hkey. reflexivity.
Defined.

(** ** The preview *)

Lemma trim_truthy (s : string) :
  JS.truthy s && JS.truthy (JS.trim s) = JS.truthy (JS.trim s).
Proof. destruct s; reflexivity. Qed.

(** C8, as stated, fails: of the text ["  hi"] the handler keeps the two
    leading spaces, where the trimmed text has none. *)
Lemma C8_preview_counterexample :
  preview_of "  hi" "" = "  hi" /\ spec_preview "  hi" "" = "hi"
  /\ preview_of "  hi" "" <> spec_preview "  hi" "".
Proof. repeat split; discriminate. Qed.

(** C8, amended. For every text and HTML body, the preview is the first
    120 units of the plain text as it is (not trimmed) when the plain
    text is not empty after trimming, and otherwise the first 120 units
    of the HTML body with its tags replaced, its runs of white space
    collapsed to one space, and trimmed; in both cases it has at most 120
    units, and the row stores it, or [NULL] when it is empty. *)
Theorem C8_preview_amended :
  forall (text html : string),
    preview_of text html = amended_preview text html
    /\ (String.length (preview_of text html) <= 120)%nat
    /\ or_null (preview_of text html)
       = match preview_of text html with
         | EmptyString => None
         | p => Some p
         end.
Proof.
  intros text html. unfold preview_of, amended_preview.
  rewrite trim_truthy, !or_empty_r.
  split; [destruct (JS.truthy (JS.trim text)); reflexivity|].
  split; [apply length_slice0|].
  unfold or_null. destruct (JS.slice0 120 _); reflexivity.
Qed.

(** ** The regular expressions of the preview *)

Lemma replace_spaces_single_spaced (b : bool) (s : string) :
  single_spaced b (JS.replace_spaces_from b s) = true.
Proof.
  revert b. induction s as [|c r IH]; intro b; simpl; [reflexivity|].
  destruct (JS.isWhiteSpace c) eqn:E.
  - destruct b; [apply IH|]. simpl. apply IH.
  - simpl. rewrite E. apply IH.
Qed.

Lemma replace_spaces_spaces_only (b : bool) (s : string) :
  spaces_only (JS.replace_spaces_from b s) = true.
Proof.
  unfold spaces_only. revert b. induction s as [|c r IH]; intro b; simpl; [reflexivity|].
  destruct (JS.isWhiteSpace c) eqn:E.
  - destruct b; [apply IH|]. simpl. apply IH.
  - simpl. rewrite E. simpl. apply IH.
Qed.

Lemma replace_spaces_visible (b : bool) (s : string) :
  visible (JS.replace_spaces_from b s) = visible s.
Proof.
  revert b. induction s as [|c r IH]; intro b; simpl; [reflexivity|].
  destruct (JS.isWhiteSpace c) eqn:E.
  - destruct b; [apply IH|]. simpl. apply IH.
  - simpl. rewrite E. now rewrite IH.
Qed.

Lemma trimStart_first (s : string) : not_space_at (first_unit (JS.trimStart s)) = true.
Proof.
  induction s as [|c r IH]; simpl; [reflexivity|].
  destruct (JS.isWhiteSpace c) eqn:E; [exact IH|]. simpl. now rewrite E.
Qed.

Lemma trimEnd_first (s : string) :
  JS.trimEnd s = "" \/ first_unit (JS.trimEnd s) = first_unit s.
Proof.
  destruct s as [|c r]; simpl; [now left|].
  destruct (JS.trimEnd r); [destruct (JS.isWhiteSpace c); [now left | now right] | now right].
Qed.

Lemma trimEnd_last (s : string) : not_space_at (last_unit (JS.trimEnd s)) = true.
Proof.
  induction s as [|c r IH]; simpl; [reflexivity|].
  destruct (JS.trimEnd r) as [|d r'] eqn:E.
  - destruct (JS.isWhiteSpace c) eqn:Ec; simpl; [reflexivity | now rewrite Ec].
  - exact IH.
Qed.

(** [trim] leaves no white space at either end. *)
Lemma trim_ends (s : string) :
  not_space_at (first_unit (JS.trim s)) = true
  /\ not_space_at (last_unit (JS.trim s)) = true.
Proof.
  unfold JS.trim. split; [|apply trimEnd_last].
  destruct (trimEnd_first (JS.trimStart s)) as [E|E]; rewrite E;
    [reflexivity | apply trimStart_first].
Qed.

Lemma trimStart_visible (s : string) : visible (JS.trimStart s) = visible s.
Proof.
  induction s as [|c r IH]; simpl; [reflexivity|].
  destruct (JS.isWhiteSpace c) eqn:E; [exact IH|]. simpl. now rewrite E.
Qed.

Lemma trimEnd_visible (s : string) : visible (JS.trimEnd s) = visible s.
Proof.
  induction s as [|c r IH]; simpl; [reflexivity|].
  destruct (JS.trimEnd r) as [|d r'] eqn:E.
  - simpl in IH. destruct (JS.isWhiteSpace c) eqn:Ec; simpl; rewrite ?Ec; now rewrite <- IH.
  - simpl. simpl in IH. destruct (JS.isWhiteSpace c); now rewrite IH.
Qed.

(** [trim] and the collapse of white space keep every other unit. *)
Lemma trim_visible (s : string) : visible (JS.trim s) = visible s.
Proof. unfold JS.trim. now rewrite trimEnd_visible, trimStart_visible. Qed.

Lemma replace_tags_from_skip (k : nat) (s : string) :
  JS.replace_tags_from k s = JS.replace_tags (JS.sliceFrom k s).
Proof.
  unfold JS.replace_tags. revert k. induction s as [|c r IH]; intros [|k]; try reflexivity.
  simpl JS.sliceFrom. rewrite <- IH. reflexivity.
Qed.

Lemma length_sliceFrom (k : nat) (s : string) :
  (String.length (JS.sliceFrom k s) <= String.length s)%nat.
Proof.
  revert k. induction s as [|c r IH]; intros [|k]; simpl; try lia.
  specialize (IH k). lia.
Qed.

Lemma replace_tags_cons (c : ascii) (r : string) :
  JS.replace_tags (String c r)
  = match JS.tag_match (String c r) with
    | Some n => String " " (JS.replace_tags (JS.sliceFrom (Nat.pred n) r))
    | None => String c (JS.replace_tags r)
    end.
Proof.
  unfold JS.replace_tags at 1. cbn [JS.replace_tags_from].
  destruct (JS.tag_match (String c r)); [now rewrite replace_tags_from_skip | reflexivity].
Qed.

Lemma tag_body_without_close (s : string) :
  contains ">" s = false -> JS.tag_body s = None.
Proof.
  induction s as [|x r IH]; [reflexivity|].
  cbn [contains]. intro H. apply orb_false_iff in H. destruct H as [Hx Hr].
  destruct r as [|d r']; [cbn [JS.tag_body]; now rewrite Hx|].
  change (JS.tag_body (String x (String d r')))
    with (if Ascii.eqb x ">" then None
          else if Ascii.eqb d ">" then Some 1%nat
               else option_map S (JS.tag_body (String d r'))).
  specialize (IH Hr). cbn [contains] in Hr. apply orb_false_iff in Hr.
  destruct Hr as [Hd _]. now rewrite Hx, Hd, IH.
Qed.

Lemma tag_body_none_without_close (x : ascii) (r : string) :
  Ascii.eqb x ">" = false ->
  JS.tag_body (String x r) = None ->
  contains ">" (String x r) = false.
Proof.
  revert x. induction r as [|d r' IH]; intros x Hx H.
  - cbn [contains]. now rewrite Hx.
  - change (JS.tag_body (String x (String d r')))
      with (if Ascii.eqb x ">" then None
            else if Ascii.eqb d ">" then Some 1%nat
                 else option_map S (JS.tag_body (String d r'))) in H.
    rewrite Hx in H.
    destruct (Ascii.eqb d ">") eqn:Hd; [discriminate|].
    destruct (JS.tag_body (String d r')) eqn:Hb; [discriminate|].
    specialize (IH d Hd Hb). cbn [contains] in *. now rewrite Hx.
Qed.

Lemma replace_tags_without_close (s : string) :
  contains ">" s = false -> JS.replace_tags s = s.
Proof.
  induction s as [|x r IH]; [reflexivity|].
  intro H. rewrite replace_tags_cons.
  assert (Hr : contains ">" r = false)
    by (cbn [contains] in H; apply orb_false_iff in H; tauto).
  unfold JS.tag_match. rewrite (tag_body_without_close r Hr).
  destruct (Ascii.eqb x "<"); simpl; now rewrite (IH Hr).
Qed.

Lemma tag_body_replace_tags (r : string) :
  JS.tag_body r = None -> JS.tag_body (JS.replace_tags r) = None.
Proof.
  intro H. destruct r as [|x r']; [reflexivity|].
  destruct (Ascii.eqb x ">") eqn:Hx.
  - rewrite replace_tags_cons. unfold JS.tag_match.
    apply Ascii.eqb_eq in Hx. subst x. reflexivity.
  - rewrite (replace_tags_without_close _ (tag_body_none_without_close x r' Hx H)).
    exact H.
Qed.

(** After [replace(/<[^>]+>/g, ' ')] no match of the expression is left. *)
Lemma replace_tags_tag_free (s : string) : tag_free (JS.replace_tags s) = true.
Proof.
  remember (String.length s) as n eqn:Hn.
  assert (Hle : (String.length s <= n)%nat) by lia. clear Hn.
  revert s Hle. induction n as [|n IH]; intros [|c r] Hle; try reflexivity;
    [simpl in Hle; lia|].
  simpl in Hle. rewrite replace_tags_cons.
  destruct (JS.tag_match (String c r)) as [m|] eqn:Hm.
  - cbn [tag_free JS.tag_match]. change (Ascii.eqb " " "<") with false. cbv iota.
    apply IH. pose proof (length_sliceFrom (Nat.pred m) r). lia.
  - cbn [tag_free].
    assert (Hnone : JS.tag_match (String c (JS.replace_tags r)) = None).
    { unfold JS.tag_match in *. destruct (Ascii.eqb c "<"); [|reflexivity].
      destruct (JS.tag_body r) eqn:Hb; [discriminate|].
      now rewrite (tag_body_replace_tags r Hb). }
    rewrite Hnone. apply IH. lia.
Qed.

(** A second replacement finds nothing to replace. *)
Lemma replace_tags_tag_free_fixed (s : string) : tag_free s = true -> JS.replace_tags s = s.
Proof.
  induction s as [|c r IH]; [reflexivity|].
  cbn [tag_free]. rewrite replace_tags_cons.
  destruct (JS.tag_match (String c r)); [discriminate|].
  intro H. now rewrite (IH H).
Qed.

Lemma replace_tags_idempotent (s : string) :
  JS.replace_tags (JS.replace_tags s) = JS.replace_tags s.
Proof. apply replace_tags_tag_free_fixed, replace_tags_tag_free. Qed.

Lemma single_spaced_weaken (b : bool) (s : string) :
  single_spaced b s = true -> single_spaced false s = true.
Proof.
  destruct s as [|c r]; [reflexivity|]. simpl.
  destruct (JS.isWhiteSpace c); [|auto]. destruct b; simpl; [discriminate | auto].
Qed.

Lemma single_spaced_tail (b : bool) (c : ascii) (r : string) :
  single_spaced b (String c r) = true -> single_spaced (JS.isWhiteSpace c) r = true.
Proof.
  simpl. destruct (JS.isWhiteSpace c); [|auto].
  intro H. apply andb_true_iff in H. tauto.
Qed.

Lemma single_spaced_trimStart (b : bool) (s : string) :
  single_spaced b s = true -> single_spaced false (JS.trimStart s) = true.
Proof.
  revert b. induction s as [|c r IH]; intros b H; [reflexivity|].
  cbn [JS.trimStart]. destruct (JS.isWhiteSpace c) eqn:E.
  - apply (IH true). apply single_spaced_tail in H. now rewrite E in H.
  - now apply single_spaced_weaken with b.
Qed.

Lemma single_spaced_trimEnd (b : bool) (s : string) :
  single_spaced b s = true -> single_spaced b (JS.trimEnd s) = true.
Proof.
  revert b. induction s as [|c r IH]; intros b H; [reflexivity|].
  pose proof (single_spaced_tail b c r H) as Ht. apply IH in Ht.
  cbn [JS.trimEnd]. destruct (JS.trimEnd r) as [|d r'] eqn:E.
  - destruct (JS.isWhiteSpace c) eqn:Ec; [reflexivity|]. simpl. now rewrite Ec.
  - simpl in H. cbn [single_spaced]. destruct (JS.isWhiteSpace c).
    + apply andb_true_iff in H. destruct H as [Hb _]. rewrite Hb. exact Ht.
    + exact Ht.
Qed.

Lemma spaces_only_trimStart (s : string) :
  spaces_only s = true -> spaces_only (JS.trimStart s) = true.
Proof.
  unfold spaces_only. induction s as [|c r IH]; [reflexivity|].
  intro H. cbn [JS.trimStart]. destruct (JS.isWhiteSpace c); [|exact H].
  simpl in H. apply andb_true_iff in H. now apply IH.
Qed.

Lemma spaces_only_trimEnd (s : string) :
  spaces_only s = true -> spaces_only (JS.trimEnd s) = true.
Proof.
  unfold spaces_only. induction s as [|c r IH]; [reflexivity|].
  intro H. simpl in H. apply andb_true_iff in H. destruct H as [Hc Hr].
  specialize (IH Hr). cbn [JS.trimEnd]. destruct (JS.trimEnd r) as [|d r'].
  - destruct (JS.isWhiteSpace c) eqn:E; [reflexivity|]. simpl. now rewrite E.
  - cbn [all_units]. cbn [all_units] in IH. now rewrite Hc, IH.
Qed.

(** The plain text the handler makes of an HTML body: no match of the
    tag expression is left before white space is collapsed; then every
    white-space unit is a single space between two other units, none at
    either end; and the units that are not white space are those of the
    body with its tags replaced. *)
Theorem html_to_plain_shape :
  forall (html : string),
    tag_free (JS.replace_tags html) = true
    /\ single_spaced false (JS.trim (JS.replace_spaces (JS.replace_tags html))) = true
    /\ spaces_only (JS.trim (JS.replace_spaces (JS.replace_tags html))) = true
    /\ not_space_at (first_unit (JS.trim (JS.replace_spaces (JS.replace_tags html)))) = true
    /\ not_space_at (last_unit (JS.trim (JS.replace_spaces (JS.replace_tags html)))) = true
    /\ visible (JS.trim (JS.replace_spaces (JS.replace_tags html)))
       = visible (JS.replace_tags html).
Proof.
  intro html. split; [apply replace_tags_tag_free|].
  split.
  - unfold JS.trim. apply single_spaced_trimEnd. eapply single_spaced_trimStart.
    apply replace_spaces_single_spaced.
  - split.
    + unfold JS.trim. apply spaces_only_trimEnd, spaces_only_trimStart.
      apply replace_spaces_spaces_only.
    + split; [apply trim_ends|]. split; [apply trim_ends|].
      rewrite trim_visible. apply replace_spaces_visible.
Qed.

(** ** Header lists *)

Lemma name_eqb_true (a b : string) :
  Http.name_eqb a b = true <-> JS.toLowerCase a = JS.toLowerCase b.
Proof. unfold Http.name_eqb. apply String.eqb_eq. Qed.

Lemma name_eqb_false (a b : string) :
  Http.name_eqb a b = false <-> JS.toLowerCase a <> JS.toLowerCase b.
Proof. unfold Http.name_eqb. apply String.eqb_neq. Qed.

Lemma name_eqb_trans_l (k a n : string) :
  Http.name_eqb k a = true -> Http.name_eqb k n = Http.name_eqb a n.
Proof. unfold Http.name_eqb. intro H. apply String.eqb_eq in H. now rewrite H. Qed.

Lemma name_eqb_sym (a b : string) : Http.name_eqb a b = Http.name_eqb b a.
Proof. unfold Http.name_eqb. apply String.eqb_sym. Qed.

(** The values under [n] after a [set] of [name]. *)
Lemma values_set_from (found : bool) (n name value : string) (h : Http.Headers) :
  List.map snd (filter (fun kv => Http.name_eqb (fst kv) n)
                       (Http.set_from found name value h))
  = if Http.name_eqb name n
    then (if found then [] else [value])
    else List.map snd (filter (fun kv => Http.name_eqb (fst kv) n) h).
Proof.
  revert found. induction h as [|[k v] r IH]; intro found; simpl.
  - destruct found; simpl; [now destruct (Http.name_eqb name n)|].
    now destruct (Http.name_eqb name n).
  - destruct (Http.name_eqb k name) eqn:Ek.
    + rewrite (name_eqb_trans_l k name n Ek).
      destruct found; simpl; rewrite ?(name_eqb_trans_l k name n Ek);
        destruct (Http.name_eqb name n) eqn:En; simpl; rewrite IH; rewrite ?En; reflexivity.
    + simpl. destruct (Http.name_eqb k n) eqn:Ekn; simpl; rewrite IH;
        destruct (Http.name_eqb name n) eqn:En; try reflexivity.
      exfalso. apply name_eqb_false in Ek. apply name_eqb_true in En.
      apply name_eqb_true in Ekn. congruence.
Qed.

Lemma get_set_same (n name value : string) (h : Http.Headers) :
  Http.name_eqb n name = true -> Http.get n (Http.set name value h) = Some value.
Proof.
  intro E. unfold Http.get, Http.set. rewrite values_set_from, name_eqb_sym, E.
  reflexivity.
Qed.

Lemma get_set_other (n name value : string) (h : Http.Headers) :
  Http.name_eqb n name = false -> Http.get n (Http.set name value h) = Http.get n h.
Proof.
  intro E. unfold Http.get, Http.set. rewrite values_set_from, name_eqb_sym, E.
  reflexivity.
Qed.

Lemma set_from_length (name value : string) (h : Http.Headers) :
  (List.length (Http.set_from true name value h) <= List.length h)%nat.
Proof.
  induction h as [|[k v] r IH]; simpl; [lia|].
  destruct (Http.name_eqb k name); simpl; lia.
Qed.

Lemma set_from_twice (found : bool) (name value : string) (h : Http.Headers) :
  Http.set_from found name value (Http.set_from found name value h)
  = Http.set_from found name value h.
Proof.
  revert found. induction h as [|[k v] r IH]; intro found; simpl.
  - destruct found; simpl; [reflexivity|].
    assert (E : Http.name_eqb name name = true) by (apply name_eqb_true; reflexivity).
    now rewrite E.
  - destruct (Http.name_eqb k name) eqn:Ek.
    + destruct found; [apply IH|]. simpl. rewrite Ek. now rewrite IH.
    + simpl. rewrite Ek. now rewrite IH.
Qed.

(** A header that a [set] would leave as it is stays so through a [set]
    of another name. *)
Lemma set_from_fixed_through (fa fb : bool) (a v b u : string) (h : Http.Headers) :
  Http.name_eqb a b = false ->
  Http.set_from fa a v h = h ->
  Http.set_from fa a v (Http.set_from fb b u h) = Http.set_from fb b u h.
Proof.
  intro Eab. revert fa fb. induction h as [|[k x] r IH]; intros fa fb Hfix.
  - simpl in Hfix. destruct fa; [|discriminate]. simpl.
    destruct fb; simpl; [reflexivity|].
    rewrite name_eqb_sym, Eab. reflexivity.
  - simpl in Hfix. destruct (Http.name_eqb k a) eqn:Eka.
    + assert (Ekb : Http.name_eqb k b = false)
        by (rewrite (name_eqb_trans_l k a b Eka); exact Eab).
      destruct fa.
      * exfalso. pose proof (set_from_length a v r) as L. rewrite Hfix in L.
        simpl in L. lia.
      * injection Hfix as Hx Hr. subst x. simpl. rewrite Ekb. simpl. rewrite Eka.
        now rewrite (IH true fb Hr).
    + injection Hfix as Hr. simpl.
      destruct (Http.name_eqb k b) eqn:Ekb.
      * destruct fb; [now apply IH|]. simpl. rewrite Eka. now rewrite (IH fa true Hr).
      * simpl. rewrite Eka. now rewrite (IH fa fb Hr).
Qed.

Lemma set_fixed_through (a v b u : string) (h : Http.Headers) :
  Http.name_eqb a b = false ->
  Http.set a v h = h ->
  Http.set a v (Http.set b u h) = Http.set b u h.
Proof. apply set_from_fixed_through. Qed.

(** ** The CORS wrapper and [fetch] *)

Lemma cors_names_differ :
  Http.name_eqb "Access-Control-Allow-Origin" "Access-Control-Allow-Methods" = false
  /\ Http.name_eqb "Access-Control-Allow-Origin" "Access-Control-Allow-Headers" = false
  /\ Http.name_eqb "Access-Control-Allow-Methods" "Access-Control-Allow-Headers" = false.
Proof. repeat split; reflexivity. Qed.

(** The header list [addCorsHeaders] builds from [h]. *)
Lemma cors_headers_of (h : Http.Headers) :
  cors_headers_set
    (Http.mkResponse 200 ""
       (Http.set "Access-Control-Allow-Headers" "Content-Type, Authorization"
          (Http.set "Access-Control-Allow-Methods" "GET, POST, PUT, DELETE, OPTIONS"
             (Http.set "Access-Control-Allow-Origin" "*" h))) None).
Proof.
  unfold cors_headers_set. cbn [Http.headers]. repeat split.
  - rewrite !get_set_other by reflexivity. now apply get_set_same.
  - rewrite get_set_other by reflexivity. now apply get_set_same.
  - now apply get_set_same.
Qed.

(** [addCorsHeaders] on a response whose status the constructor takes:
    the status, the status text and the body are kept, the three CORS
    headers read as set (whatever the response had under these names),
    and every other header reads as before. *)
Theorem addCorsHeaders_sets_headers :
  forall (r : Http.Response),
    200 <= Http.status r <= 599 ->
    exists r',
      Http.addCorsHeaders (Some r) = Some (Some r')
      /\ Http.status r' = Http.status r
      /\ Http.statusText r' = Http.statusText r
      /\ Http.body r' = Http.body r
      /\ cors_headers_set r'
      /\ forall name, not_cors_name name ->
           Http.get name (Http.headers r') = Http.get name (Http.headers r).
Proof.
  intros r Hst. unfold Http.addCorsHeaders, Http.new_Response.
  assert (E : (200 <=? Http.status r) && (Http.status r <=? 599) = true)
    by (apply andb_true_iff; split; apply Z.leb_le; lia).
  rewrite E. cbn [option_map]. eexists. split; [reflexivity|].
  cbn [Http.status Http.statusText Http.body Http.headers].
  repeat split; try reflexivity; try apply (cors_headers_of (Http.headers r)).
  intros name [Ho [Hm Hh]]. now rewrite !get_set_other.
Qed.

Lemma addCorsHeaders_sets_headers_witness :
  exists r',
    Http.addCorsHeaders (Some HttpSample.routed) = Some (Some r')
    /\ Http.status r' = 200
    /\ Http.get "Access-Control-Allow-Origin" (Http.headers r') = Some "*"
    /\ Http.get "Content-Type" (Http.headers r') = Some "application/json".
Proof.
  destruct (addCorsHeaders_sets_headers HttpSample.routed)
    as [r' [Hr [Hs [_ [_ [[Ho _] Hother]]]]]]; [simpl; lia|].
  exists r'. split; [exact Hr|]. split; [exact Hs|]. split; [exact Ho|].
  rewrite Hother; [reflexivity | repeat split; reflexivity].
Defined.

(** Wrapping a wrapped response changes nothing. *)
Theorem addCorsHeaders_idempotent :
  forall (r r' : Http.Response),
    Http.addCorsHeaders (Some r) = Some (Some r') ->
    Http.addCorsHeaders (Some r') = Some (Some r').
Proof.
  intros r r' H. unfold Http.addCorsHeaders, Http.new_Response in *.
  destruct ((200 <=? Http.status r) && (Http.status r <=? 599)) eqn:E; [|discriminate].
  cbn [option_map] in H. injection H as H. subst r'.
  cbn [Http.status Http.statusText Http.body Http.headers]. rewrite E. cbn [option_map].
  destruct cors_names_differ as [Hom [Hoh Hmh]].
  do 3 f_equal.
  set (h := Http.headers r).
  assert (Ho : Http.set "Access-Control-Allow-Origin" "*"
                 (Http.set "Access-Control-Allow-Headers" "Content-Type, Authorization"
                    (Http.set "Access-Control-Allow-Methods" "GET, POST, PUT, DELETE, OPTIONS"
                       (Http.set "Access-Control-Allow-Origin" "*" h)))
               = Http.set "Access-Control-Allow-Headers" "Content-Type, Authorization"
                   (Http.set "Access-Control-Allow-Methods" "GET, POST, PUT, DELETE, OPTIONS"
                      (Http.set "Access-Control-Allow-Origin" "*" h))).
  { apply set_fixed_through; [exact Hoh|].
    apply set_fixed_through; [exact Hom|]. apply set_from_twice. }
  rewrite Ho.
  assert (Hm : Http.set "Access-Control-Allow-Methods" "GET, POST, PUT, DELETE, OPTIONS"
                 (Http.set "Access-Control-Allow-Headers" "Content-Type, Authorization"
                    (Http.set "Access-Control-Allow-Methods" "GET, POST, PUT, DELETE, OPTIONS"
                       (Http.set "Access-Control-Allow-Origin" "*" h)))
               = Http.set "Access-Control-Allow-Headers" "Content-Type, Authorization"
                   (Http.set "Access-Control-Allow-Methods" "GET, POST, PUT, DELETE, OPTIONS"
                      (Http.set "Access-Control-Allow-Origin" "*" h))).
  { apply set_fixed_through; [exact Hmh|]. apply set_from_twice. }
  rewrite Hm. apply set_from_twice.
Qed.

Lemma addCorsHeaders_idempotent_witness :
  exists r',
    Http.addCorsHeaders (Some HttpSample.routed) = Some (Some r')
    /\ Http.addCorsHeaders (Some r') = Some (Some r').
Proof.
  destruct (addCorsHeaders_sets_headers HttpSample.routed) as [r' [Hr _]]; [simpl; lia|].
  exists r'. split; [exact Hr|].
  exact (addCorsHeaders_idempotent HttpSample.routed r' Hr).
Defined.

Lemma addCorsHeaders_result (r0 r : Http.Response) :
  Http.addCorsHeaders (Some r0) = Some (Some r) -> cors_headers_set r.
Proof.
  unfold Http.addCorsHeaders, Http.new_Response.
  destruct ((200 <=? Http.status r0) && (Http.status r0 <=? 599)); [|discriminate].
  cbn [option_map]. intro H. injection H as H. subst r.
  apply (cors_headers_of (Http.headers r0)).
Qed.

(** Every response [fetch] returns carries the three CORS headers,
    whichever branch made it: the preflight answer, the answer to an
    unreachable datastore, the router's response or the asset manager's. *)
Theorem fetch_responses_carry_cors :
  forall (K : Http.Services) (request : Http.Request) (env : Http.FetchEnv)
         (w : World) (r : Http.Response),
    fst (Http.fetch K request env w) = Some (Some r) ->
    cors_headers_set r.
Proof.
  intros K request env w r. unfold Http.fetch.
  destruct (Http.method request =? "OPTIONS")%string.
  - cbn [fst]. intro H. vm_compute in H. injection H as H. subst r.
    repeat split; reflexivity.
  - destruct (negb (db_reachable (Http.worker env))).
    + cbn [Http.new_text_Response Http.new_Response Z.leb andb fst].
      change ((200 <=? 500) && (500 <=? 599)) with true. cbv iota. cbn [fst].
      apply addCorsHeaders_result.
    + destruct (Http.router_handle K request env w) as [[[routeResponse|]|] w1];
        cbn [fst]; [apply addCorsHeaders_result | | discriminate].
      destruct (Http.handleAssetRequest K request env
                  (Http.MAIL_DOMAINS_of (Http.MAIL_DOMAIN env)) w1)
        as [[[assetResponse|]|] w2]; cbn [fst];
        [apply addCorsHeaders_result | discriminate | discriminate].
Qed.

Lemma fetch_responses_carry_cors_witness :
  exists r,
    fst (Http.fetch HttpSample.services (Http.mkRequest "GET" "/api/mailboxes")
           HttpSample.env Sample.empty) = Some (Some r)
    /\ Http.get "Access-Control-Allow-Origin" (Http.headers r) = Some "*".
Proof.
  eexists. split; [reflexivity|].
  exact (proj1 (fetch_responses_carry_cors HttpSample.services
                  (Http.mkRequest "GET" "/api/mailboxes") HttpSample.env Sample.empty _
                  eq_refl)).
Defined.

(** A preflight request, and any request while the datastore is
    unreachable, is answered without the router and the asset manager:
    204 for [OPTIONS], 500 otherwise, the same for all services, and the
    datastore and the bucket are left as they are. *)
Theorem fetch_without_services :
  forall (K : Http.Services) (request : Http.Request) (env : Http.FetchEnv) (w : World),
    Http.method request = "OPTIONS" \/ db_reachable (Http.worker env) = false ->
    exists r,
      fst (Http.fetch K request env w) = Some (Some r)
      /\ Http.status r = (if (Http.method request =? "OPTIONS")%string then 204 else 500)
      /\ Http.body r
         = (if (Http.method request =? "OPTIONS")%string then None else Some Http.DB_FAILED_TEXT)
      /\ db (snd (Http.fetch K request env w)) = db w
      /\ bucket (snd (Http.fetch K request env w)) = bucket w
      /\ forall K', Http.fetch K' request env w = Http.fetch K request env w.
Proof.
  intros K request env w H. unfold Http.fetch.
  destruct (Http.method request =? "OPTIONS")%string eqn:Em.
  - eexists. split; [reflexivity|]. repeat split; reflexivity.
  - destruct H as [H|H]; [apply String.eqb_neq in Em; contradiction|].
    rewrite H. cbn [negb]. eexists. split; [reflexivity|]. repeat split; reflexivity.
Qed.

Lemma fetch_without_services_witness :
  exists r,
    fst (Http.fetch HttpSample.services (Http.mkRequest "OPTIONS" "/api/mailboxes")
           HttpSample.env Sample.empty) = Some (Some r)
    /\ Http.status r = 204.
Proof.
  destruct (fetch_without_services HttpSample.services
              (Http.mkRequest "OPTIONS" "/api/mailboxes") HttpSample.env Sample.empty
              (or_introl eq_refl)) as [r [Hr [Hs _]]].
  exists r. split; [exact Hr | exact Hs].
Defined.

(** ** The list of mail domains *)

Lemma split_separators_not_nil (b : bool) (s : string) : Http.split_separators b s <> [].
Proof.
  revert b. induction s as [|c r IH]; intro b; simpl; [discriminate|].
  destruct (Http.is_separator c).
  - destruct b; [apply IH | discriminate].
  - destruct (Http.split_separators false r); discriminate.
Qed.

Lemma split_separators_pieces (b : bool) (s : string) :
  Forall (fun piece => all_units (fun c => negb (Http.is_separator c)) piece = true)
         (Http.split_separators b s).
Proof.
  revert b. induction s as [|c r IH]; intro b; simpl.
  - repeat constructor.
  - destruct (Http.is_separator c) eqn:E.
    + destruct b; [apply IH|]. constructor; [reflexivity | apply IH].
    + specialize (IH false). destruct (Http.split_separators false r) as [|piece pieces].
      * constructor; [simpl; now rewrite E | constructor].
      * inversion IH as [|x l Hx Hl]; subst. constructor; [|exact Hl].
        simpl. now rewrite E, Hx.
Qed.

Lemma separator_free_no_space (s : string) :
  all_units (fun c => negb (Http.is_separator c)) s = true ->
  all_units (fun c => negb (JS.isWhiteSpace c)) s = true.
Proof.
  induction s as [|c r IH]; simpl; [reflexivity|].
  intro H. apply andb_true_iff in H. destruct H as [Hc Hr]. rewrite (IH Hr), andb_true_r.
  unfold Http.is_separator in Hc. apply negb_true_iff in Hc. apply orb_false_iff in Hc.
  destruct Hc as [_ Hw]. now rewrite Hw.
Qed.

Lemma trimEnd_no_space (s : string) :
  all_units (fun c => negb (JS.isWhiteSpace c)) s = true -> JS.trimEnd s = s.
Proof.
  induction s as [|c r IH]; simpl; [reflexivity|].
  intro H. apply andb_true_iff in H. destruct H as [Hc Hr]. rewrite (IH Hr).
  apply negb_true_iff in Hc. rewrite Hc. destruct r; reflexivity.
Qed.

(** [trim] leaves a string without white space as it is. *)
Lemma trim_no_space (s : string) :
  all_units (fun c => negb (JS.isWhiteSpace c)) s = true -> JS.trim s = s.
Proof.
  intro H. unfold JS.trim.
  assert (E : JS.trimStart s = s).
  { destruct s as [|c r]; [reflexivity|]. simpl in *.
    apply andb_true_iff in H. destruct H as [Hc _]. apply negb_true_iff in Hc.
    now rewrite Hc. }
  rewrite E. now apply trimEnd_no_space.
Qed.

Lemma map_trim_pieces (pieces : list string) :
  Forall (fun piece => all_units (fun c => negb (Http.is_separator c)) piece = true) pieces ->
  List.map JS.trim pieces = pieces.
Proof.
  induction 1 as [|p ps Hp _ IH]; simpl; [reflexivity|].
  now rewrite IH, (trim_no_space p (separator_free_no_space p Hp)).
Qed.

(** Every domain of the list is non-empty and holds neither a comma nor
    white space, whatever [MAIL_DOMAIN] is. *)
Theorem MAIL_DOMAINS_clean :
  forall (MAIL_DOMAIN : option string),
    Forall (fun d => clean_domain d = true) (Http.MAIL_DOMAINS_of MAIL_DOMAIN).
Proof.
  intro v. unfold Http.MAIL_DOMAINS_of.
  pose proof (split_separators_pieces false (JS.or_opt v "temp.example.com")) as Hp.
  rewrite (map_trim_pieces _ Hp).
  apply Forall_forall. intros d Hd. apply filter_In in Hd. destruct Hd as [Hin Ht].
  rewrite Forall_forall in Hp. unfold clean_domain. now rewrite Ht, (Hp d Hin).
Qed.

Lemma split_separators_clean (b : bool) (s : string) :
  all_units (fun c => negb (Http.is_separator c)) s = true ->
  Http.split_separators b s = [s].
Proof.
  revert b. induction s as [|c r IH]; intros b H; simpl; [reflexivity|].
  simpl in H. apply andb_true_iff in H. destruct H as [Hc Hr].
  apply negb_true_iff in Hc. rewrite Hc, (IH false Hr). reflexivity.
Qed.

Lemma split_separators_app (d t : string) :
  all_units (fun c => negb (Http.is_separator c)) d = true ->
  Http.split_separators false (d ++ t)
  = match Http.split_separators false t with
    | piece :: pieces => (d ++ piece) :: pieces
    | [] => [d]
    end.
Proof.
  induction d as [|c r IH]; simpl; intro H.
  - destruct (Http.split_separators false t) eqn:E; [|reflexivity].
    now apply split_separators_not_nil in E.
  - apply andb_true_iff in H. destruct H as [Hc Hr]. apply negb_true_iff in Hc.
    rewrite Hc, (IH Hr).
    destruct (Http.split_separators false t) eqn:E; [|reflexivity].
    now apply split_separators_not_nil in E.
Qed.

Lemma split_separators_run (sep t : string) :
  all_units Http.is_separator sep = true ->
  Http.split_separators true (sep ++ t) = Http.split_separators true t.
Proof.
  induction sep as [|c r IH]; simpl; intro H; [reflexivity|].
  apply andb_true_iff in H. destruct H as [Hc Hr]. now rewrite Hc, (IH Hr).
Qed.

Lemma split_separators_flag (b : bool) (c : ascii) (r : string) :
  Http.is_separator c = false ->
  Http.split_separators b (String c r) = Http.split_separators false (String c r).
Proof. intro H. simpl. now rewrite H. Qed.

Lemma string_app_empty_r (s : string) : s ++ "" = s.
Proof. induction s as [|c r IH]; simpl; [reflexivity | now rewrite IH]. Qed.

(** Splitting a list of clean domains joined by a run of separators
    gives the list back. *)
Lemma split_join_domains (sep : string) (d : string) (ds : list string) :
  sep <> "" ->
  all_units Http.is_separator sep = true ->
  Forall (fun x => clean_domain x = true) (d :: ds) ->
  Http.split_separators false (JS.join sep (d :: ds)) = d :: ds.
Proof.
  intros Hne Hsep. revert d. induction ds as [|d' ds IH]; intros d Hall.
  - inversion Hall as [|x l Hd _]; subst. unfold clean_domain in Hd.
    apply andb_true_iff in Hd. simpl. now apply split_separators_clean.
  - inversion Hall as [|x l Hd Hrest]; subst.
    unfold clean_domain in Hd. apply andb_true_iff in Hd. destruct Hd as [_ Hd].
    change (JS.join sep (d :: d' :: ds)) with (d ++ sep ++ JS.join sep (d' :: ds)).
    rewrite (split_separators_app d _ Hd).
    destruct sep as [|c sep']; [contradiction|].
    simpl in Hsep. apply andb_true_iff in Hsep. destruct Hsep as [Hc Hsep'].
    change ((String c sep' ++ JS.join (String c sep') (d' :: ds)))
      with (String c (sep' ++ JS.join (String c sep') (d' :: ds))).
    cbn [Http.split_separators]. rewrite Hc.
    rewrite (split_separators_run sep' _ Hsep'), string_app_empty_r.
    f_equal.
    assert (Hfirst : exists x r, JS.join (String c sep') (d' :: ds) = String x r
                                 /\ Http.is_separator x = false).
    { inversion Hrest as [|y l Hd' _]; subst. unfold clean_domain in Hd'.
      apply andb_true_iff in Hd'. destruct Hd' as [Ht Hfree].
      destruct d' as [|x r]; [discriminate|].
      simpl in Hfree. apply andb_true_iff in Hfree. destruct Hfree as [Hx _].
      apply negb_true_iff in Hx.
      destruct ds; simpl; eexists; eexists; split; try reflexivity; exact Hx. }
    destruct Hfirst as [x [r [E Hx]]].
    rewrite E, (split_separators_flag true x r Hx), <- E. now apply IH.
Qed.

Lemma filter_truthy_domains (ds : list string) :
  Forall (fun x => clean_domain x = true) ds -> filter JS.truthy ds = ds.
Proof.
  induction 1 as [|d ds Hd _ IH]; simpl; [reflexivity|].
  unfold clean_domain in Hd. apply andb_true_iff in Hd. destruct Hd as [Ht _].
  now rewrite Ht, IH.
Qed.

(** A list of clean domains written with a run of commas and white
    space between two domains reads back as the same list. *)
Theorem MAIL_DOMAINS_round_trip :
  forall (sep d : string) (ds : list string),
    sep <> "" ->
    all_units Http.is_separator sep = true ->
    Forall (fun x => clean_domain x = true) (d :: ds) ->
    Http.MAIL_DOMAINS_of (Some (JS.join sep (d :: ds))) = d :: ds.
Proof.
  intros sep d ds Hne Hsep Hall. unfold Http.MAIL_DOMAINS_of.
  assert (Hor : JS.or_opt (Some (JS.join sep (d :: ds))) "temp.example.com"
                = JS.join sep (d :: ds)).
  { inversion Hall as [|x l Hd _]; subst. unfold clean_domain in Hd.
    apply andb_true_iff in Hd. destruct Hd as [Ht _].
    destruct d as [|x r]; [discriminate|]. destruct ds; reflexivity. }
  rewrite Hor, (split_join_domains sep d ds Hne Hsep Hall).
  rewrite map_trim_pieces; [now apply filter_truthy_domains|].
  eapply Forall_impl; [|exact Hall].
  intros x Hx. unfold clean_domain in Hx. apply andb_true_iff in Hx. tauto.
Qed.

Lemma MAIL_DOMAINS_round_trip_witness :
  Http.MAIL_DOMAINS_of (Some "a.example.com, b.example.com")
  = ["a.example.com"; "b.example.com"].
Proof.
  apply (MAIL_DOMAINS_round_trip ", " "a.example.com" ["b.example.com"]);
    [discriminate | reflexivity | repeat constructor].
Defined.

Lemma split_separators_only (s : string) :
  all_units Http.is_separator s = true -> Http.split_separators true s = [""].
Proof.
  induction s as [|c r IH]; simpl; [reflexivity|].
  intro H. apply andb_true_iff in H. destruct H as [Hc Hr]. now rewrite Hc, (IH Hr).
Qed.

(** A [MAIL_DOMAIN] that is set and holds nothing but commas and white
    space gives the empty list, not the default domain. *)
Theorem MAIL_DOMAINS_of_separators :
  forall (s : string),
    s <> "" ->
    all_units Http.is_separator s = true ->
    Http.MAIL_DOMAINS_of (Some s) = []
    /\ Http.MAIL_DOMAINS_of None = ["temp.example.com"]
    /\ Http.MAIL_DOMAINS_of (Some "") = ["temp.example.com"].
Proof.
  intros s Hne Hsep. split; [|split; reflexivity].
  unfold Http.MAIL_DOMAINS_of. destruct s as [|c r]; [contradiction|].
  cbn [JS.or_opt JS.or JS.truthy]. simpl in Hsep.
  apply andb_true_iff in Hsep. destruct Hsep as [Hc Hr].
  cbn [Http.split_separators]. rewrite Hc, (split_separators_only r Hr). reflexivity.
Qed.

Lemma MAIL_DOMAINS_of_separators_witness :
  Http.MAIL_DOMAINS_of (Some " , ") = [].
Proof.
  exact (proj1 (MAIL_DOMAINS_of_separators " , " ltac:(discriminate) eq_refl)).
Defined.

(** ** What the [email] handler does to the datastore and the bucket *)

(** The datastore after a handled message: the provisioner's, with one
    more message row when the mailbox resolved. *)
Lemma email_db (C : Collaborators) (message : EmailMessage) (env : Env) (w : World) :
  db_reachable env = true ->
  db (email C message env w)
  = match fst (provision env (recipient_address C message) (db w)) with
    | Returned id =>
        mkDB (mailboxes (snd (provision env (recipient_address C message) (db w))))
             (messages (db w) ++ [recorded_row C message env (messages (db w)) id])
    | Thrown _ => snd (provision env (recipient_address C message) (db w))
    end.
Proof.
  intro Hdb. unfold email. rewrite Hdb. unfold exec, try_catch.
  rewrite email_body_run. unfold record_message, recorded_row.
  destruct (extract_content C message) as [[textContent htmlContent] rawBuffer].
  rewrite recipient_or_header. fold (recipient_address C message).
  unfold bind. rewrite archive_run, find_or_create_run, archive_world_db.
  change (db (add_event w (spec_forward C message (db w)))) with (db w).
  pose proof (provision_messages env (recipient_address C message) (db w)) as Hpm.
  destruct (provision env (recipient_address C message) (db w)) as [[id|e] d1];
    cbn [fst snd] in *.
  - unfold Sql.insert_message, bind, get_db, set_db. cbn [fst snd db messages mailboxes].
    now rewrite Hpm.
  - reflexivity.
Qed.

(** The bucket after a handled message is the archive step's. *)
Lemma email_bucket (C : Collaborators) (message : EmailMessage) (env : Env) (w : World) :
  db_reachable env = true ->
  bucket (email C message env w)
  = bucket (archive_world env (recipient_address C message) (raw message) w).
Proof.
  intro Hdb. unfold email. rewrite Hdb. unfold exec, try_catch.
  rewrite email_body_run. unfold record_message.
  pose proof (rawBuffer_is_raw C message) as Hraw. unfold rawBuffer_of in Hraw.
  destruct (extract_content C message) as [[textContent htmlContent] rawBuffer].
  cbn [snd] in Hraw. subst rawBuffer.
  rewrite recipient_or_header. fold (recipient_address C message).
  unfold bind. rewrite archive_run, find_or_create_run.
  assert (Hb : bucket (archive_world env (recipient_address C message) (raw message)
                         (add_event w (spec_forward C message (db w))))
               = bucket (archive_world env (recipient_address C message) (raw message) w)).
  { unfold archive_world, add_event.
    destruct (MAIL_EML env) as [r2|]; [destruct (raw message) as [bytes|]|]; try reflexivity.
    destruct (put_raises r2 (objectKey_of env (recipient_address C message))); reflexivity. }
  destruct (fst (provision env (recipient_address C message) _)) as [id|e];
    cbn [fst snd]; unfold Sql.insert_message, bind, get_db, set_db, console, emit;
    cbn [fst snd bucket]; exact Hb.
Qed.

(** The handler never deletes or changes a row: it appends at most one
    mailbox row and at most one message row, and a mailbox row only
    together with a message row. *)
Theorem email_only_appends :
  forall (C : Collaborators) (message : EmailMessage) (env : Env) (w : World),
    exists mbs msgs,
      mailboxes (db (email C message env w)) = (mailboxes (db w) ++ mbs)%list
      /\ messages (db (email C message env w)) = (messages (db w) ++ msgs)%list
      /\ (List.length mbs <= List.length msgs)%nat
      /\ (List.length msgs <= 1)%nat.
Proof.
  intros C message env w. destruct (db_reachable env) eqn:Hdb.
  - rewrite (email_db C message env w Hdb), provision_eq.
    destruct (Sql.select_mailbox_ids (JS.toLowerCase (recipient_address C message)) (db w))
      as [|id ids].
    + destruct (JS.split "@" (JS.toLowerCase (recipient_address C message)))
        as [|lp [|dm rest]]; cbn [fst snd];
        try (exists [], []; rewrite !app_nil_r; simpl; repeat split; lia).
      destruct (JS.truthy lp && JS.truthy dm); cbn [fst snd mailboxes messages].
      * eexists [_], [_]. simpl. repeat split; lia.
      * exists [], []. rewrite !app_nil_r. simpl. repeat split; lia.
    + cbn [fst snd]. destruct (id =? 0); cbn [mailboxes messages].
      * exists [], []. rewrite !app_nil_r. simpl. repeat split; lia.
      * eexists [], [_]. rewrite app_nil_r. simpl. repeat split; lia.
  - unfold email. rewrite Hdb. exists [], []. rewrite !app_nil_r. simpl. repeat split; lia.
Qed.



Lemma scheduled_unreachable (env : Env) (w : World) :
  db_reachable env = false -> db (scheduled env w) = db w.
Proof. intro H. unfold scheduled. now rewrite H. Qed.





(** Both handlers keep the mailbox addresses distinct. *)
Theorem handlers_preserve_unique_addresses :
  forall (C : Collaborators) (message : EmailMessage) (env : Env) (w : World),
    unique_addresses (db w) ->
    unique_addresses (db (email C message env w))
    /\ unique_addresses (db (scheduled env w)).
Proof.
  unfold unique_addresses. intros C message env w Hnd. split.
  - destruct (db_reachable env) eqn:Hdb;
      [|unfold email; rewrite Hdb; exact Hnd].
    rewrite (email_db C message env w Hdb).
    assert (Hprov : NoDup (List.map address
                     (mailboxes (snd (provision env (recipient_address C message) (db w)))))).
    { destruct (provision_cases env (recipient_address C message) (db w))
        as [Hsame | [row [Hsel [Ha [_ Hrun]]]]].
      - now rewrite (Hsame env).
      - rewrite Hrun. cbn [snd mailboxes]. rewrite map_app. simpl. rewrite Ha.
        apply NoDup_app; [exact Hnd | repeat constructor; intros [] |].
        intros a Hin [E|[]]. subst a. now apply select_nil_not_in in Hsel. }
    destruct (fst (provision env (recipient_address C message) (db w))); exact Hprov.
  - destruct (db_reachable env) eqn:Hdb;
      [|rewrite (scheduled_unreachable env w Hdb); exact Hnd].
    rewrite (scheduled_db env w Hdb).
    cbn [Sql.delete_expired_mailboxes Sql.delete_expired_messages mailboxes].
    generalize dependent (mailboxes (db w)). intros mbs Hmbs.
    induction mbs as [|mb mbs IH]; simpl; [constructor|].
    inversion Hmbs as [|x l Hnot Hrest]; subst.
    match goal with |- context [if ?b then _ else _] => destruct b end;
      [|now apply IH].
    simpl. constructor; [|now apply IH].
    intro Hin. apply Hnot. apply in_map_iff in Hin. destruct Hin as [y [Ey Hy]].
    apply filter_In in Hy. apply in_map_iff. exists y. tauto.
Qed.

Lemma handlers_preserve_unique_addresses_witness :
  unique_addresses (db SweepSample.world)
  /\ unique_addresses (db (email Sample.plain (Sample.msg_to "new@temp.example.com")
                             SweepSample.env SweepSample.world))
  /\ unique_addresses (db (scheduled SweepSample.env SweepSample.world)).
Proof.
  assert (H : unique_addresses (db SweepSample.world)).
  { unfold unique_addresses. simpl.
    repeat (constructor; [simpl; intros F; repeat (destruct F as [F|F]; try discriminate F);
                          exact F|]).
    constructor. }
  split; [exact H|].
  exact (handlers_preserve_unique_addresses Sample.plain
           (Sample.msg_to "new@temp.example.com") SweepSample.env SweepSample.world H).
Defined.

(** ** The archived blob *)

Lemma bucket_get_remove (key k : string) (b : Bucket) :
  bucket_get key (bucket_remove k b)
  = if (k =? key)%string then None else bucket_get key b.
Proof.
  induction b as [|[k' bytes] r IH]; simpl; [now destruct (k =? key)%string|].
  destruct (String.eqb_spec k' k) as [E|E]; simpl.
  - subst k'. rewrite IH. now destruct (k =? key)%string.
  - rewrite IH. destruct (String.eqb_spec k' key) as [E'|E']; [|reflexivity].
    subst k'. apply String.eqb_neq in E. rewrite String.eqb_sym in E. now rewrite E.
Qed.

(** A readable message is archived whether or not its mailbox resolves:
    with a bucket whose write succeeds, the bytes are under the key
    after the run and every other object of the bucket is untouched;
    and when the mailbox resolves, the key of the inserted row is the
    key of the blob. *)
Theorem email_archives_readable_messages :
  forall (C : Collaborators) (message : EmailMessage) (env : Env) (w : World)
         (r2 : R2Binding) (bytes : string),
    db_reachable env = true ->
    MAIL_EML env = Some r2 ->
    raw message = Some bytes ->
    put_raises r2 (objectKey_of env (recipient_address C message)) = false ->
    bucket_get (objectKey_of env (recipient_address C message))
               (bucket (email C message env w)) = Some bytes
    /\ (forall k, k <> objectKey_of env (recipient_address C message) ->
                  bucket_get k (bucket (email C message env w)) = bucket_get k (bucket w))
    /\ (forall id,
          outcome (find_or_create_mailbox env (recipient_address C message)) w = Returned id ->
          exists row,
            messages (db (email C message env w)) = (messages (db w) ++ [row])%list
            /\ bucket_get (r2_object_key row) (bucket (email C message env w)) = Some bytes).
Proof.
  intros C message env w r2 bytes Hdb Hr2 Hraw Hput.
  assert (Hb : bucket (email C message env w)
               = (objectKey_of env (recipient_address C message), bytes)
                   :: bucket_remove (objectKey_of env (recipient_address C message))
                                    (bucket w)).
  { rewrite (email_bucket C message env w Hdb). unfold archive_world.
    now rewrite Hr2, Hraw, Hput. }
  assert (Hget : bucket_get (objectKey_of env (recipient_address C message))
                            (bucket (email C message env w)) = Some bytes)
    by (rewrite Hb; simpl; now rewrite String.eqb_refl).
  split; [exact Hget|]. split.
  - intros k Hk. rewrite Hb. simpl.
    destruct (String.eqb_spec (objectKey_of env (recipient_address C message)) k) as [E|E];
      [congruence|].
    rewrite bucket_get_remove. apply String.eqb_neq in E. now rewrite E.
  - intros id Hid.
    destruct (email_recorded C message env w id Hdb Hid) as [row [Hm [_ [Hkey _]]]].
    exists row. split; [exact Hm|]. now rewrite Hkey.
Qed.

Lemma email_archives_readable_messages_witness :
  bucket_get "2024/03/05/nobody/070809-3f2a.eml"
             (bucket (email Sample.plain (Sample.msg_to "nobody")
                            (Sample.env_with (Some Sample.up)) Sample.empty))
  = Some "Subject: hi"
  /\ messages (db (email Sample.plain (Sample.msg_to "nobody")
                         (Sample.env_with (Some Sample.up)) Sample.empty)) = [].
Proof.
  split; [|reflexivity].
  exact (proj1 (email_archives_readable_messages Sample.plain (Sample.msg_to "nobody")
                  (Sample.env_with (Some Sample.up)) Sample.empty Sample.up "Subject: hi"
                  eq_refl eq_refl eq_refl eq_refl)).
Defined.

(** Without a bucket, without a readable raw message, or with a write
    that raises, the bucket is left as it is. *)
Theorem email_without_write_keeps_bucket :
  forall (C : Collaborators) (message : EmailMessage) (env : Env) (w : World),
    (MAIL_EML env = None
     \/ raw message = None
     \/ exists r2, MAIL_EML env = Some r2
                   /\ put_raises r2 (objectKey_of env (recipient_address C message)) = true) ->
    bucket (email C message env w) = bucket w.
Proof.
  intros C message env w H. destruct (db_reachable env) eqn:Hdb;
    [|unfold email; rewrite Hdb; reflexivity].
  rewrite (email_bucket C message env w Hdb). unfold archive_world.
  destruct H as [H | [H | [r2 [H Hput]]]].
  - now rewrite H.
  - rewrite H. now destruct (MAIL_EML env).
  - rewrite H, Hput. now destruct (raw message).
Qed.

Lemma email_without_write_keeps_bucket_witness :
  bucket (email Sample.plain (Sample.msg_to "new.user@temp.example.com")
                (Sample.env_with None) SweepSample.world)
  = bucket SweepSample.world.
Proof.
  apply (email_without_write_keeps_bucket Sample.plain
           (Sample.msg_to "new.user@temp.example.com") (Sample.env_with None)
           SweepSample.world).
  left. reflexivity.
Defined.

(** ** Splitting and joining *)

Lemma string_append_length (a b : string) :
  String.length (a ++ b) = (String.length a + String.length b)%nat.
Proof. induction a as [|c a IH]; simpl; [reflexivity | now rewrite IH]. Qed.

Lemma split_not_nil (sep : ascii) (s : string) : JS.split sep s <> [].
Proof.
  induction s as [|c r IH]; simpl; [discriminate|].
  destruct (Ascii.eqb c sep); [discriminate|].
  destruct (JS.split sep r); discriminate.
Qed.

(** Joining the pieces of a split with the separator gives the string
    back. *)
Lemma join_split (sep : ascii) (s : string) :
  JS.join (String sep "") (JS.split sep s) = s.
Proof.
  unfold JS.join. induction s as [|c r IH]; [reflexivity|].
  simpl. destruct (Ascii.eqb_spec c sep) as [E|E].
  - subst c. pose proof (split_not_nil sep r) as Hne.
    destruct (JS.split sep r) as [|h t]; [contradiction|].
    change (String.concat (String sep "") ("" :: h :: t))
      with (String sep (String.concat (String sep "") (h :: t))).
    now rewrite IH.
  - pose proof (split_not_nil sep r) as Hne.
    destruct (JS.split sep r) as [|h t]; [contradiction|].
    destruct t as [|h' t']; simpl in *; now rewrite <- IH.
Qed.

Lemma split_app_separator (sep : ascii) (d t : string) :
  contains sep d = false ->
  JS.split sep (d ++ String sep t) = d :: JS.split sep t.
Proof.
  induction d as [|c r IH]; simpl; intro H.
  - now rewrite Ascii.eqb_refl.
  - apply orb_false_iff in H. destruct H as [Hc Hr]. rewrite Hc, (IH Hr). reflexivity.
Qed.

(** Splitting a join of strings that do not hold the separator gives
    the strings back. *)
Lemma split_join (sep : ascii) (x : string) (xs : list string) :
  Forall (fun s => contains sep s = false) (x :: xs) ->
  JS.split sep (JS.join (String sep "") (x :: xs)) = x :: xs.
Proof.
  unfold JS.join. revert x. induction xs as [|y ys IH]; intros x H.
  - inversion H as [|a l Hx _]; subst. simpl. now apply split_without_separator.
  - inversion H as [|a l Hx Hrest]; subst.
    change (String.concat (String sep "") (x :: y :: ys))
      with (x ++ String sep (String.concat (String sep "") (y :: ys))).
    now rewrite (split_app_separator sep x _ Hx), (IH y Hrest).
Qed.

(** ** The created mailbox and the recipient list *)

(** The mailbox the provisioner creates for an address that has no row:
    appended to the table with the lowercase address, the first two
    pieces of the address as local part and domain, no password, the
    datastore's time and no flag; its address is [local_part@domain]
    exactly when the address has a single ['@']. *)
Theorem created_mailbox_row :
  forall (env : Env) (mailbox lp dm : string) (rest : list string) (w : World),
    Sql.select_mailbox_ids (JS.toLowerCase mailbox) (db w) = [] ->
    JS.split "@" (JS.toLowerCase mailbox) = lp :: dm :: rest ->
    lp <> "" -> dm <> "" ->
    exists row,
      mailboxes (db (exec (find_or_create_mailbox env mailbox) w))
      = (mailboxes (db w) ++ [row])%list
      /\ outcome (find_or_create_mailbox env mailbox) w = Returned (mb_id row)
      /\ ~ In (mb_id row) (List.map mb_id (mailboxes (db w)))
      /\ address row = JS.toLowerCase mailbox
      /\ local_part row = lp /\ domain row = dm
      /\ password_hash row = None
      /\ created_at row = sql_now env
      /\ is_pinned row = 0 /\ is_favorite row = 0
      /\ (address row = lp ++ "@" ++ dm <-> rest = []).
Proof.
  intros env mailbox lp dm rest w Hsel Hsplit Hlp Hdm.
  unfold exec, outcome. rewrite find_or_create_run, provision_eq, Hsel, Hsplit.
  apply truthy_true_iff in Hlp. apply truthy_true_iff in Hdm. rewrite Hlp, Hdm.
  cbn [andb fst snd db mailboxes].
  exists (created_mailbox env mailbox lp dm (db w)).
  split; [reflexivity|]. split; [reflexivity|].
  split.
  { cbn [created_mailbox mb_id]. intro Hin.
    assert (Hle : forall ids i, In i ids -> i < Sql.next_id ids).
    { unfold Sql.next_id. induction ids as [|j ids IH]; cbn [fold_right In]; intros i Hi;
        [contradiction|].
      destruct Hi as [E|Hi]; [subst; lia|]. specialize (IH i Hi). lia. }
    specialize (Hle _ _ Hin). lia. }
  repeat (split; [reflexivity|]).
  cbn [created_mailbox address].
  pose proof (join_split "@" (JS.toLowerCase mailbox)) as Hjoin.
  rewrite Hsplit in Hjoin. rewrite <- Hjoin. unfold JS.join.
  split.
  - destruct rest as [|x xs]; [reflexivity|].
    change (String.concat "@" (lp :: dm :: x :: xs))
      with (lp ++ "@" ++ dm ++ "@" ++ String.concat "@" (x :: xs)).
    intro F. apply (f_equal String.length) in F.
    rewrite !string_append_length in F. simpl in F. lia.
  - intro E. subst rest. reflexivity.
Qed.

Lemma created_mailbox_row_witness :
  exists row,
    mailboxes (db (exec (find_or_create_mailbox (Sample.env_with None) "A@B@C.org")
                        Sample.empty)) = [row]
    /\ address row = "a@b@c.org" /\ local_part row = "a" /\ domain row = "b"
    /\ address row <> "a" ++ "@" ++ "b".
Proof.
  destruct (created_mailbox_row (Sample.env_with None) "A@B@C.org" "a" "b" ["c.org"]
              Sample.empty eq_refl eq_refl ltac:(discriminate) ltac:(discriminate))
    as [row [Hm [_ [_ [Ha [Hl [Hd [_ [_ [_ [_ Hiff]]]]]]]]]]].
  exists row. split; [exact Hm|]. split; [exact Ha|]. split; [exact Hl|].
  split; [exact Hd|]. intro F. apply Hiff in F. discriminate F.
Defined.

(** The recipient list of a message row: for an envelope that is a list
    of strings none of which holds a comma, and at least one of which is
    not empty, splitting [to_addrs] at the commas gives the non-empty
    recipients, in order. *)
Theorem toAddrs_round_trip :
  forall (message : EmailMessage) (resolvedRecipient : string) (recipients : list string),
    to message = ToArray (List.map EntryString recipients) ->
    Forall (fun s => contains "," s = false) recipients ->
    filter JS.truthy recipients <> [] ->
    JS.split "," (toAddrs_of message resolvedRecipient) = filter JS.truthy recipients.
Proof.
  intros message resolvedRecipient recipients Hto Hfree Hne.
  unfold toAddrs_of. rewrite Hto, map_map.
  rewrite map_id.
  assert (Hf : Forall (fun s => contains "," s = false) (filter JS.truthy recipients)).
  { apply Forall_forall. intros s Hs. apply filter_In in Hs.
    rewrite Forall_forall in Hfree. now apply Hfree. }
  destruct (filter JS.truthy recipients) as [|x xs]; [contradiction|].
  now apply split_join.
Qed.

Lemma toAddrs_round_trip_witness :
  JS.split ","
    (toAddrs_of (mkEmailMessage Sample.no_headers
                   (ToArray [EntryString "a@x.org"; EntryString ""; EntryString "b@y.org"])
                   None) "")
  = ["a@x.org"; "b@y.org"].
Proof.
  apply (toAddrs_round_trip _ "" ["a@x.org"; ""; "b@y.org"]);
    [reflexivity | repeat constructor | discriminate].
Defined.

(** ** Keys and unique identifiers *)

Lemma string_app_inv_head (a b c : string) : a ++ b = a ++ c -> b = c.
Proof. induction a as [|x a IH]; simpl; intro H; [exact H|]. injection H as H. now apply IH. Qed.

Lemma string_app_inv_tail (a b s : string) : a ++ s = b ++ s -> a = b.
Proof.
  revert b. induction a as [|x a IH]; intros [|y b] H; try reflexivity.
  - exfalso. apply (f_equal String.length) in H. simpl in H.
    rewrite string_append_length in H. lia.
  - exfalso. apply (f_equal String.length) in H. simpl in H.
    rewrite string_append_length in H. lia.
  - simpl in H. injection H as Hx H. subst y. now rewrite (IH b H).
Qed.

Lemma keyId_not_empty (env : Env) : keyId_of env <> "".
Proof.
  unfold keyId_of. destruct (randomUUID env) as [[|c u]|]; simpl;
    try discriminate;
    destruct (JS.String_of_Z (Date_now env)); discriminate.
Qed.

(** The unique identifier is never empty, and two messages of the same
    second to the same mailbox get different keys as soon as their
    unique identifiers differ. *)
Theorem objectKey_distinct_ids :
  forall (env env' : Env) (mailbox : string),
    new_Date env = new_Date env' ->
    keyId_of env <> keyId_of env' ->
    objectKey_of env mailbox <> objectKey_of env' mailbox
    /\ keyId_of env <> "" /\ keyId_of env' <> "".
Proof.
  intros env env' mailbox Hdate Hid.
  split; [|split; apply keyId_not_empty].
  unfold objectKey_of. rewrite Hdate. intro H. apply Hid.
  repeat (apply string_app_inv_head in H).
  now apply string_app_inv_tail in H.
Qed.

Lemma objectKey_distinct_ids_witness :
  objectKey_of (Sample.env_with None) "a@b.org"
  <> objectKey_of (mkEnv true None Sample.date 1709622489000 None "0.k2j9x" 1709622489)
                  "a@b.org".
Proof.
  apply (objectKey_distinct_ids (Sample.env_with None)
           (mkEnv true None Sample.date 1709622489000 None "0.k2j9x" 1709622489) "a@b.org");
    [reflexivity | discriminate].
Defined.

(** ** What the sweep does to the datastore and the bucket *)

(** What the datastore holds after a sweep depends on the datastore and
    its clock only: neither the bucket, nor a delete that raises, nor
    the absence of a bucket changes which rows are deleted. *)
Theorem sweep_datastore_independent_of_bucket :
  forall (env env' : Env) (w w' : World),
    db_reachable env = true ->
    db_reachable env' = true ->
    sql_now env = sql_now env' ->
    db w = db w' ->
    db (scheduled env w) = db (scheduled env' w').
Proof.
  intros env env' w w' Hdb Hdb' Hnow Hw.
  now rewrite (scheduled_db env w Hdb), (scheduled_db env' w' Hdb'), Hnow, Hw.
Qed.

Lemma sweep_datastore_independent_of_bucket_witness :
  db (scheduled SweepSample.env SweepSample.world)
  = db (scheduled (mkEnv true (Some Sample.outage) Sample.date 0 None "" SweepSample.now)
                  (mkWorld (db SweepSample.world) [] [])).
Proof.
  apply sweep_datastore_independent_of_bucket; reflexivity.
Defined.

Lemma filter_all {A : Type} (f : A -> bool) (l : list A) :
  (forall x, In x l -> f x = true) -> filter f l = l.
Proof.
  induction l as [|x l IH]; simpl; intro H; [reflexivity|].
  rewrite (H x (or_introl eq_refl)). f_equal. apply IH. intros y Hy. apply H. now right.
Qed.

(** A second sweep at the same time of the datastore's clock deletes
    nothing more. *)
Theorem sweep_idempotent :
  forall (env : Env) (w : World),
    db (scheduled env (scheduled env w)) = db (scheduled env w).
Proof.
  intros env w. destruct (db_reachable env) eqn:Hdb;
    [|now rewrite !(scheduled_unreachable env _ Hdb)].
  rewrite (scheduled_db env (scheduled env w) Hdb), (scheduled_db env w Hdb).
  unfold Sql.delete_expired_mailboxes, Sql.delete_expired_messages.
  cbn [mailboxes messages].
  set (old := Sql.older_than EXPIRE_MINUTES (sql_now env)).
  set (keep := fun mb => negb (old mb && (is_pinned mb =? 0) && (is_favorite mb =? 0))).
  f_equal.
  - apply filter_all. intros mb Hin. apply filter_In in Hin. tauto.
  - apply filter_all. intros m Hin. apply filter_In in Hin. destruct Hin as [_ Hkeep].
    apply negb_true_iff. apply negb_true_iff in Hkeep.
    apply not_true_iff_false. apply not_true_iff_false in Hkeep.
    intro Hex. apply Hkeep. apply existsb_exists in Hex. destruct Hex as [id [Hid Heq]].
    apply existsb_exists. exists id. split; [|exact Heq].
    apply in_map_iff in Hid. destruct Hid as [mb [Eid Hmb]].
    apply filter_In in Hmb. destruct Hmb as [Hmb Hold].
    apply filter_In in Hmb. destruct Hmb as [Hmb _].
    apply in_map_iff. exists mb. split; [exact Eid|]. apply filter_In. now split.
Qed.

Lemma delete_blobs_bucket (r2 : R2Binding) (keys : list string) (w : World) :
  bucket (snd (delete_blobs r2 keys w)) = swept_bucket r2 keys (bucket w).
Proof.
  unfold swept_bucket. revert w. induction keys as [|key rest IH]; intro w; [reflexivity|].
  simpl. unfold bind, try_catch, r2_delete, console, emit, throw.
  destruct (delete_raises r2 key); simpl; rewrite IH; reflexivity.
Qed.

(** The bucket a sweep leaves. *)
Lemma scheduled_bucket (env : Env) (w : World) :
  db_reachable env = true ->
  bucket (scheduled env w)
  = match MAIL_EML env with
    | Some r2 => swept_bucket r2 (swept_keys env (db w)) (bucket w)
    | None => bucket w
    end.
Proof.
  intro Hdb. unfold scheduled. rewrite Hdb.
  unfold exec, try_catch, scheduled_body, swept_keys.
  unfold bind at 1. unfold get_db at 1. unfold bind at 1.
  set (step2 := match MAIL_EML env with
                | Some r2 => _
                | None => _
                end).
  assert (H2 : exists w1, step2 w = (Returned tt, w1)
                          /\ bucket w1
                             = match MAIL_EML env with
                               | Some r2 =>
                                   swept_bucket r2
                                     (filter JS.truthy
                                        (List.map snd
                                           (Sql.select_expired_messages EXPIRE_MINUTES
                                              (sql_now env) (db w))))
                                     (bucket w)
                               | None => bucket w
                               end).
  { unfold step2. destruct (MAIL_EML env) as [r2|]; [|exists w; split; reflexivity].
    destruct (Sql.select_expired_messages EXPIRE_MINUTES (sql_now env) (db w)) as [|m ms];
      [exists w; split; reflexivity|].
    match goal with
    | |- context [delete_blobs r2 ?ks] =>
        exists (snd (delete_blobs r2 ks w)); split;
        [ pose proof (delete_blobs_returns r2 ks w) as R;
          destruct (delete_blobs r2 ks w) as [o w1]; simpl in *; now rewrite R
        | apply delete_blobs_bucket ]
    end. }
  destruct H2 as [w1 [E1 Eb]]. rewrite E1.
  unfold bind, get_db, set_db, console, emit. simpl. exact Eb.
Qed.

Lemma swept_bucket_get (r2 : R2Binding) (keys : list string) (b : Bucket) (k : string) :
  bucket_get k (swept_bucket r2 keys b)
  = if existsb (fun key => (key =? k)%string && negb (delete_raises r2 key)) keys
    then None else bucket_get k b.
Proof.
  unfold swept_bucket. revert b. induction keys as [|key rest IH]; intro b; [reflexivity|].
  simpl. rewrite IH. destruct (delete_raises r2 key); simpl.
  - now rewrite andb_false_r.
  - rewrite andb_true_r, bucket_get_remove.
    destruct (key =? k)%string; simpl; [|reflexivity].
    now destruct (existsb _ rest).
Qed.

Lemma swept_keys_of_message (env : Env) (d : DB) (m : MessageRow) (mb : Mailbox) :
  In m (messages d) ->
  r2_object_key m <> "" ->
  In mb (mailboxes d) ->
  mailbox_id m = mb_id mb ->
  created_at mb <= sql_now env - EXPIRE_MINUTES * 60 ->
  In (r2_object_key m) (swept_keys env d).
Proof.
  intros Hm Hkey Hmb Hid Hold. unfold swept_keys, Sql.select_expired_messages.
  apply filter_In. split; [|now apply truthy_true_iff].
  apply in_map_iff. exists (msg_id m, r2_object_key m). split; [reflexivity|].
  apply in_flat_map. exists m. split.
  - apply filter_In. split; [exact Hm|]. apply negb_true_iff. now apply String.eqb_neq.
  - apply in_map_iff. exists mb. split; [reflexivity|].
    apply filter_In. split; [exact Hmb|]. apply andb_true_iff. split.
    + now apply Z.eqb_eq.
    + unfold Sql.older_than. now apply Z.leb_le.
Qed.

(** The blob of a message of a mailbox older than the window is gone
    after the sweep, when the bucket's delete of its key does not raise. *)
Theorem sweep_deletes_blobs :
  forall (env : Env) (w : World) (r2 : R2Binding) (m : MessageRow) (mb : Mailbox),
    db_reachable env = true ->
    MAIL_EML env = Some r2 ->
    In m (messages (db w)) ->
    r2_object_key m <> "" ->
    In mb (mailboxes (db w)) ->
    mailbox_id m = mb_id mb ->
    created_at mb <= sql_now env - EXPIRE_MINUTES * 60 ->
    delete_raises r2 (r2_object_key m) = false ->
    bucket_get (r2_object_key m) (bucket (scheduled env w)) = None.
Proof.
  intros env w r2 m mb Hdb Hr2 Hm Hkey Hmb Hid Hold Hdel.
  rewrite (scheduled_bucket env w Hdb), Hr2, swept_bucket_get.
  assert (Hex : existsb (fun key => (key =? r2_object_key m)%string
                                    && negb (delete_raises r2 key))
                        (swept_keys env (db w)) = true).
  { apply existsb_exists. exists (r2_object_key m). split.
    - now apply (swept_keys_of_message env (db w) m mb).
    - now rewrite String.eqb_refl, Hdel. }
  now rewrite Hex.
Qed.

Lemma sweep_deletes_blobs_witness :
  bucket_get (r2_object_key SweepSample.letter) (bucket SweepSample.world) = Some "raw"
  /\ bucket_get (r2_object_key SweepSample.letter)
                (bucket (scheduled SweepSample.env SweepSample.world)) = None.
Proof.
  split; [reflexivity|].
  apply (sweep_deletes_blobs SweepSample.env SweepSample.world Sample.up
           SweepSample.letter SweepSample.favorite);
    try reflexivity; try discriminate.
  - left. reflexivity.
  - left. reflexivity.
Defined.

(** An object stays in the bucket through the sweep when its key is not
    the key of a message of a mailbox older than the window, when the
    delete of its key raises, when there is no bucket binding, and when
    the datastore is unreachable. *)
Theorem sweep_keeps_other_blobs :
  forall (env : Env) (w : World) (k : string),
    (~ In k (swept_keys env (db w))
     \/ MAIL_EML env = None
     \/ db_reachable env = false
     \/ exists r2, MAIL_EML env = Some r2 /\ delete_raises r2 k = true) ->
    bucket_get k (bucket (scheduled env w)) = bucket_get k (bucket w).
Proof.
  intros env w k H. destruct (db_reachable env) eqn:Hdb;
    [|unfold scheduled; rewrite Hdb; reflexivity].
  rewrite (scheduled_bucket env w Hdb).
  destruct (MAIL_EML env) as [r2|] eqn:Hr2; [|reflexivity].
  rewrite swept_bucket_get.
  destruct (existsb _ (swept_keys env (db w))) eqn:Hex; [|reflexivity].
  exfalso. apply existsb_exists in Hex. destruct Hex as [key [Hin Hk]].
  apply andb_true_iff in Hk. destruct Hk as [Ek Hdel]. apply String.eqb_eq in Ek.
  subst key. apply negb_true_iff in Hdel.
  destruct H as [H | [H | [H | [r [Hr Hraise]]]]].
  - now apply H.
  - discriminate H.
  - discriminate H.
  - injection Hr as Hr. subst r. congruence.
Qed.

Lemma sweep_keeps_other_blobs_witness :
  bucket_get "2024/03/05/keep@temp.example.com/063709-aa.eml"
    (bucket (scheduled (mkEnv true (Some Sample.outage) Sample.date 0 None ""
                              SweepSample.now) SweepSample.world))
  = Some "raw".
Proof.
  rewrite (sweep_keeps_other_blobs
             (mkEnv true (Some Sample.outage) Sample.date 0 None "" SweepSample.now)
             SweepSample.world "2024/03/05/keep@temp.example.com/063709-aa.eml").
  - reflexivity.
  - right. right. right. exists Sample.outage. split; reflexivity.
Defined.

(** The deletes add one event for each key, the failure log of a key
    whose delete raises among them. *)
Lemma delete_blobs_trace (r2 : R2Binding) (keys : list string) (w : World) :
  exists evs,
    trace (snd (delete_blobs r2 keys w)) = (trace w ++ evs)%list
    /\ forallb is_delete_event evs = true
    /\ forall k, In k keys -> delete_raises r2 k = true -> In (Console (R2DeleteFailed k)) evs.
Proof.
  revert w. induction keys as [|key rest IH]; intro w.
  - exists []. split; [simpl; now rewrite app_nil_r | split; [reflexivity | intros k []]].
  - simpl. unfold bind, try_catch, r2_delete, console, emit, throw.
    destruct (delete_raises r2 key) eqn:E; simpl.
    + destruct (IH (mkWorld (db w) (bucket w) (trace w ++ [Console (R2DeleteFailed key)])))
        as [evs [Ht [Hall Hin]]].
      exists (Console (R2DeleteFailed key) :: evs). split; [|split].
      * rewrite Ht. simpl. now rewrite <- app_assoc.
      * exact Hall.
      * intros k [Ek|Hk] Hr; [subst; now left | right; now apply Hin].
    + destruct (IH (mkWorld (db w) (bucket_remove key (bucket w))
                            (trace w ++ [R2Delete key]))) as [evs [Ht [Hall Hin]]].
      exists (R2Delete key :: evs). split; [|split].
      * rewrite Ht. simpl. now rewrite <- app_assoc.
      * exact Hall.
      * intros k [Ek|Hk] Hr; [subst; congruence | right; now apply Hin].
Qed.

(** A delete that raises does not stop the sweep: among the events the
    run adds (their order is not fixed by the code, the deletes not
    being awaited) are the failure log with the key and the log of the
    completed sweep, and no log of a failed sweep; and the datastore is
    purged as by a sweep whose deletes all succeed. *)
Theorem sweep_logs_failed_deletes :
  forall (env : Env) (w : World) (r2 : R2Binding) (k : string),
    db_reachable env = true ->
    MAIL_EML env = Some r2 ->
    In k (swept_keys env (db w)) ->
    delete_raises r2 k = true ->
    (exists evs,
       trace (scheduled env w) = (trace w ++ evs)%list
       /\ In (Console (R2DeleteFailed k)) evs
       /\ In (Console SweepDone) evs
       /\ ~ In (Console SweepFailed) evs)
    /\ db (scheduled env w)
       = Sql.delete_expired_mailboxes EXPIRE_MINUTES (sql_now env)
           (Sql.delete_expired_messages EXPIRE_MINUTES (sql_now env) (db w)).
Proof.
  intros env w r2 k Hdb Hr2 Hin Hraise. split; [|now apply scheduled_db].
  unfold scheduled. rewrite Hdb.
  unfold exec, try_catch, scheduled_body. unfold swept_keys in Hin.
  unfold bind at 1. unfold get_db at 1. unfold bind at 1. rewrite Hr2.
  destruct (Sql.select_expired_messages EXPIRE_MINUTES (sql_now env) (db w)) as [|m ms] eqn:Es;
    [contradiction|].
  destruct (delete_blobs_trace r2 (filter JS.truthy (List.map snd (m :: ms))) w)
    as [evs [Ht [Hall Hev]]].
  pose proof (delete_blobs_returns r2 (filter JS.truthy (List.map snd (m :: ms))) w) as R.
  destruct (delete_blobs r2 (filter JS.truthy (List.map snd (m :: ms))) w) as [o w1].
  cbn [fst snd] in *. subst o.
  unfold bind, get_db, set_db, console, emit. cbn [fst snd trace].
  exists (evs ++ [Console SweepDone])%list.
  split; [now rewrite Ht, <- app_assoc|].
  split; [apply in_or_app; left; now apply Hev|].
  split; [apply in_or_app; right; now left|].
  intro F. apply in_app_or in F. destruct F as [F | [F | []]]; [|discriminate F].
  rewrite forallb_forall in Hall. specialize (Hall _ F). discriminate Hall.
Qed.

Lemma sweep_logs_failed_deletes_witness :
  In (Console (R2DeleteFailed "2024/03/05/keep@temp.example.com/063709-aa.eml"))
     (trace (scheduled (mkEnv true (Some Sample.outage) Sample.date 0 None ""
                              SweepSample.now) SweepSample.world))
  /\ In (Console SweepDone)
        (trace (scheduled (mkEnv true (Some Sample.outage) Sample.date 0 None ""
                                 SweepSample.now) SweepSample.world)).
Proof.
  destruct (sweep_logs_failed_deletes
              (mkEnv true (Some Sample.outage) Sample.date 0 None "" SweepSample.now)
              SweepSample.world Sample.outage
              "2024/03/05/keep@temp.example.com/063709-aa.eml"
              eq_refl eq_refl (or_introl eq_refl) eq_refl) as [[evs [Ht [Hin [Hdone _]]]] _].
  rewrite Ht. split; apply in_or_app; right; assumption.
Defined.

(** ** The local part *)

Lemma lower_unit_idempotent (c : ascii) : JS.lower_unit (JS.lower_unit c) = JS.lower_unit c.
Proof. destruct c as [[] [] [] [] [] [] [] []]; reflexivity. Qed.

Lemma split_toLowerCase (s : string) :
  JS.split "@" (JS.toLowerCase s) = List.map JS.toLowerCase (JS.split "@" s).
Proof.
  unfold JS.toLowerCase. induction s as [|c r IH]; [reflexivity|].
  cbn [JS.map JS.split]. rewrite lower_unit_at, IH.
  destruct (Ascii.eqb c "@"); [reflexivity|].
  destruct (JS.split "@" r); reflexivity.
Qed.

Lemma split_head_clean (sep : ascii) (s : string) :
  contains sep (hd "" (JS.split sep s)) = false.
Proof.
  induction s as [|c r IH]; [reflexivity|].
  simpl. destruct (Ascii.eqb c sep) eqn:E; [reflexivity|].
  destruct (JS.split sep r) as [|h t]; simpl in *; now rewrite E.
Qed.

(** The local part the forwarder gets is in lower case and holds no
    ['@']; it is the first piece of the lowercase address, the one the
    provisioner stores as [local_part] of a mailbox it creates. *)
Theorem localPart_of_address :
  forall (addr : string),
    contains "@" (localPart_of addr) = false
    /\ JS.toLowerCase (localPart_of addr) = localPart_of addr
    /\ nth_error (JS.split "@" (JS.toLowerCase addr)) 0 = Some (localPart_of addr).
Proof.
  intro addr. unfold localPart_of. rewrite or_empty_r.
  split; [rewrite contains_at_toLowerCase; apply split_head_clean|].
  split.
  - unfold JS.toLowerCase. generalize (hd "" (JS.split "@" addr)) as s.
    induction s as [|c r IH]; simpl; [reflexivity|].
    now rewrite lower_unit_idempotent, IH.
  - rewrite split_toLowerCase. pose proof (split_not_nil "@" addr) as Hne.
    destruct (JS.split "@" addr); [contradiction | reflexivity].
Qed.

(** ** The body that no parser read *)



